(** * Diem_Thi_THPT_2025: the crawl controller and the merge step

    A shallow embedding of [crawl.py] (identifier builder, fetcher with
    retry and backoff, batch executor, region scanner, orchestrator) and of
    the two merge scripts ([merged.py], [merged_csv.py]), with the
    properties the specification states about them.

    Conventions of the embedding.
    - Python [int] is [Z]; a duration in seconds is an exact rational [Q]:
      [Sleep d] records the exact value of the sum the program computes.
      The program computes it in binary floating point and sleeps the
      rounded value, which can differ from [d] by a rounding error; bounds
      on durations are therefore stated with both ends included where
      rounding can reach them.
    - A decoded JSON document is a [json] value; a JSON object, which Python
      decodes to a [dict], is a [gmap string json].
    - A Python exception is a value of [exn]; code that can raise returns
      [exn + A], with [inl e] for "raised e".
    - The network and the random generator are oracles: [net url k] is what
      the [k]-th attempt (counted from 0) on [url] meets, [rng url k] is the
      53-bit integer behind the call of [random.random()] made after that
      attempt.  Every (url, attempt) pair is used at most once in a scan, so
      any run of the program is the run of the embedding under some oracle.
    - Effects that a property speaks about (requests, sleeps, rows written)
      are recorded in explicit traces.  Logging and printing are left out. *)

From Stdlib Require Import QArith Qround Ascii Lqa.
From stdpp Require Import gmap strings list.

Open Scope Z_scope.

#[local] Set Warnings "-clear-no-such-hyp".

(** ** Python values *)

Inductive exn : Type :=
| TimeoutError        (* asyncio.TimeoutError and its subclasses, among them
                         aiohttp.ServerTimeoutError: the first except clause *)
| ClientError         (* an aiohttp.ClientError that is not a timeout *)
| JSONDecodeError     (* raised by resp.json() on a malformed body *)
| AttributeError
| TypeError
| KeyError
| ValueError
| ZeroDivisionError
| OtherError.         (* any other subclass of Exception *)

Global Instance exn_eq_dec : EqDecision exn.
Proof. solve_decision. Defined.

#[warnings="-register-all"]
Inductive json : Type :=
| JNull
| JBool (b : bool)
| JNum (q : Q)
| JStr (s : string)
| JArr (l : list json)
| JObj (m : gmap string json).

(** Code that may raise: [inl e] is "raised [e]". *)
Global Instance exn_ret : MRet (sum exn) := λ A x, inr x.
Global Instance exn_bind : MBind (sum exn) := λ A B f m,
  match m with inl e => inl e | inr x => f x end.
Global Instance exn_fmap : FMap (sum exn) := λ A B f m,
  match m with inl e => inl e | inr x => inr (f x) end.

(** [bool(x)] *)
Definition truthy (j : json) : bool :=
  match j with
  | JNull => false
  | JBool b => b
  | JNum q => negb (Qeq_bool q 0)
  | JStr s => negb (bool_decide (s = ""))
  | JArr l => match l with [] => false | _ => true end
  | JObj m => negb (bool_decide (m = ∅))
  end.

(** [x.get(key, default)]: only a dict has the method. *)
Definition py_get (x : json) (key : string) (dflt : json) : exn + json :=
  match x with
  | JObj m => inr (default dflt (m !! key))
  | _ => inl AttributeError
  end.

(** [x > 0] *)
Definition py_gt_zero (x : json) : exn + bool :=
  match x with
  | JNum q => inr (negb (Qle_bool q 0))
  | JBool b => inr b
  | _ => inl TypeError
  end.

(** [list(iter(x))]: what a [for] loop over [x] visits.  A dict yields its
    keys; their order is not modelled. *)
Definition py_iter (x : json) : exn + list json :=
  match x with
  | JArr l => inr l
  | JStr s => inr ((λ c, JStr (String c "")) <$> String.list_ascii_of_string s)
  | JObj m => inr (JStr <$> (map_to_list m).*1)
  | _ => inl TypeError
  end.

(** ** Decimal formatting of integers *)

Definition digit_char (d : Z) : ascii := ascii_of_nat (Z.to_nat (48 + d)).

(** The decimal digits of [n >= 0], least significant first. *)
Fixpoint dec_digits_rev (fuel : nat) (n : Z) : list ascii :=
  match fuel with
  | O => []
  | S f =>
      if n <? 10 then [digit_char n]
      else digit_char (n mod 10) :: dec_digits_rev f (n / 10)
  end.

(** [str(n)] for [n >= 0]; a number below [2^k] has at most [k] digits. *)
Definition dec_digits (n : Z) : list ascii :=
  reverse (dec_digits_rev (S (Z.to_nat (Z.log2 n))) n).

(** [str(n)] *)
Definition py_str_int (n : Z) : string :=
  if n <? 0 then String "-" (String.string_of_list_ascii (dec_digits (- n)))
  else String.string_of_list_ascii (dec_digits n).

(** [f"{n:0{width}d}"]: sign-aware zero padding up to [width] characters. *)
Definition format_0d (width : nat) (n : Z) : string :=
  if n <? 0 then
    let ds := dec_digits (- n) in
    String "-" (String.string_of_list_ascii
                  (replicate (width - 1 - length ds) "0"%char ++ ds))
  else
    let ds := dec_digits n in
    String.string_of_list_ascii (replicate (width - length ds) "0"%char ++ ds).

(** ** crawl.py: configuration *)

Definition BASE_URL : string := "https://s6.tuoitre.vn/api/diem-thi-thpt.htm".
Definition CONCURRENCY : Z := 10.
Definition BATCH_SIZE : Z := 200.
Definition TIMEOUT : Z := 10.
Definition DELAY_BETWEEN_REQUESTS : Q := 5 # 10.
Definition MAX_CONSECUTIVE_MISSES : Z := 1000.
Definition SERIAL_DIGITS : nat := 6.
Definition RATE_LIMIT_THRESHOLD : Q := 5 # 10.

(** [range(lo, hi)] *)
Definition py_range (lo hi : Z) : list Z :=
  (λ i : nat, lo + Z.of_nat i) <$> seq 0 (Z.to_nat (hi - lo)).

Definition PROVINCE_CODES : list string := format_0d 2 <$> py_range 1 65.

(** ** crawl.py: identifiers and request targets *)

Definition build_sbd (province : string) (serial : Z) : string :=
  province +:+ format_0d SERIAL_DIGITS serial.

Definition build_request_url (sbd : string) (year : Z) : string :=
  BASE_URL +:+ "?sbd=" +:+ sbd +:+ "&year=" +:+ py_str_int year.

(** The decoding the specification pairs with [build_sbd]: the first two
    characters are the region code, the remaining six, read as a decimal
    numeral, are the serial.  It is not part of the program. *)
Definition digit_val (c : ascii) : option Z :=
  let v := Z.of_nat (nat_of_ascii c) - 48 in
  if bool_decide (0 <= v < 10) then Some v else None.

Fixpoint int_of_digits (acc : Z) (cs : list ascii) : option Z :=
  match cs with
  | [] => Some acc
  | c :: cs' =>
      match digit_val c with
      | Some d => int_of_digits (10 * acc + d) cs'
      | None => None
      end
  end.

Definition decode_sbd (sbd : string) : option (string * Z) :=
  match int_of_digits 0 (String.list_ascii_of_string (String.substring 2 6 sbd)) with
  | Some serial => Some (String.substring 0 2 sbd, serial)
  | None => None
  end.

(** ** crawl.py: the fetcher *)

(** What one [session.get] meets: a response with its status and the outcome
    of [await resp.json()] (consulted only when the status is 200), or an
    exception raised by the request itself. *)
Inductive response : Type :=
| Response (status : Z) (body : exn + json)
| Raises (e : exn).

Inductive event : Type :=
| Get (url : string)
| Sleep (secs : Q).

(** [random.random()]: a multiple of [2^-53] in [[0, 1)]. *)
Definition random_random (bits : N) : Q :=
  Z.of_N (bits mod 2 ^ 53) # 2 ^ 53.

(** [random.uniform(a, b)] is [a + (b - a) * random()]. *)
Definition uniform (a b r : Q) : Q := (a + (b - a) * r)%Q.

(** [{"success": False}] *)
Definition NO_DATA : json := JObj {[ "success" := JBool false ]}.

(** One confirmed result, the dict built by [fetch_batch]; ["data"] keeps
    the insertion order of its keys. *)
Record record : Type := {
  rec_sbd : string;
  rec_tinh_id : json;
  rec_data : list (string * json)
}.

(** [d[key]] on the ["data"] dict of a record. *)
Fixpoint py_getitem (d : list (string * json)) (key : string) : exn + json :=
  match d with
  | [] => inl KeyError
  | (k, v) :: d' => if bool_decide (k = key) then inr v else py_getitem d' key
  end.

(** [a / b] on integers, as an exact rational.  Python rounds the quotient
    to a double; for the counts and batch sizes of a crawl the comparison
    of the quotient with 0.5 is the same. *)
Definition true_div (a b : Z) : exn + Q :=
  if b =? 0 then inl ZeroDivisionError else inr (inject_Z a / inject_Z b)%Q.

(** The local [subjects] of [fetch_batch]. *)
Definition fetch_batch_subjects : list string :=
  ["TOAN"; "VAN"; "NGOAI_NGU"; "LI"; "HOA"; "SINH"; "SU"; "DIA";
   "GIAO_DUC_CONG_DAN"; "TIN_HOC"; "CN_CONG_NGHIEP"; "CN_NONG_NGHIEP";
   "GDKT_PL"; "TONGDIEM"].

(** The local [subjects] of [worker_scan_province]. *)
Definition worker_subjects : list string :=
  ["TOAN"; "VAN"; "NGOAI_NGU"; "LI"; "HOA"; "SINH"; "SU"; "DIA";
   "GIAO_DUC_CONG_DAN"; "TIN_HOC"; "CN_CONG_NGHIEP"; "CN_NONG_NGHIEP";
   "GDKT_PL"; "TONGDIEM"].

(** What a call of [fetch_batch] does: the traces of its concurrent fetches
    (one per identifier, in dispatch order; their interleaving is left
    open), the sleeps of the coroutine itself after the fetches, and what
    it returns or raises. *)
Record batch_run : Type := {
  tasks : list (list event);
  cooldown : list event;
  returned : exn + list record
}.

Definition row : Type := list json.

Inductive scan_event : Type :=
| RunBatch (start_serial : Z) (run : batch_run)
| Wait (secs : Q).

(** The locals of [worker_scan_province], the rows of its output file, and
    the trace of the batches it ran. *)
Record scan_state : Type := {
  file : list row;
  total : Z;
  consecutive_misses : Z;
  serial : Z;
  trace : list scan_event
}.

Inductive attempt_outcome : Type :=
| Return (r : json)
| Raise (e : exn)
| Continue (wait : Q).

Section Crawl.

Context (net : string → nat → response) (rng : string → nat → N).

(** The two [except] clauses of [fetch]; anything else propagates. *)
Definition fetch_except (r : Q) (e : exn) : attempt_outcome :=
  match e with
  | TimeoutError => Continue (1 + uniform 0 (2 # 10) r)
  | ClientError => Continue ((5 # 10) + uniform 0 (2 # 10) r)
  | _ => Raise e
  end.

(** [json_data.get("success") and json_data.get("total", 0) > 0] *)
Definition has_results (json_data : json) : exn + bool :=
  success ← py_get json_data "success" JNull;
  if truthy success then
    total ← py_get json_data "total" (JNum 0);
    py_gt_zero total
  else mret false.

(** The body of the [for attempt in range(retries)] loop. *)
Definition fetch_attempt (url : string) (attempt : nat) : attempt_outcome :=
  let r := random_random (rng url attempt) in
  match net url attempt with
  | Raises e => fetch_except r e
  | Response status body =>
      if status =? 200 then
        match body with
        | inl e => fetch_except r e
        | inr json_data =>
            match has_results json_data with
            | inl e => fetch_except r e
            | inr true => Return json_data
            | inr false => Return NO_DATA
            end
        end
      else if status =? 429 then
        Continue (inject_Z ((Z.of_nat attempt + 1) * 10) + uniform 0 2 r)
      else
        Continue ((5 # 10) + uniform 0 (2 # 10) r)
  end.

(** The loop from iteration [attempt] on, with [remaining] iterations
    left; the result is the trace of requests and sleeps and what the
    coroutine returns or raises. *)
Fixpoint fetch_from (url : string) (attempt remaining : nat)
  : list event * (exn + json) :=
  match remaining with
  | O => ([], inr NO_DATA)
  | S n =>
      match fetch_attempt url attempt with
      | Return r => ([Get url], inr r)
      | Raise e => ([Get url], inl e)
      | Continue wait =>
          let '(evs, res) := fetch_from url (S attempt) n in
          (Get url :: Sleep wait :: evs, res)
      end
  end.

Definition fetch (url : string) (retries : nat) : list event * (exn + json) :=
  fetch_from url 0 retries.

(** *** The batch executor *)

(** The dict appended for one payload row. *)
Definition extract_item (province sbd : string) (item : json) : exn + record :=
  tinh_id ← py_get item "TinhId" (JStr province);
  data ← mapM (λ subj, v ← py_get item subj (JNum (-1)); mret (subj, v))
              fetch_batch_subjects;
  mret {| rec_sbd := sbd; rec_tinh_id := tinh_id; rec_data := data |}.

(** The loop [for sbd, result in zip(sbds, results)].  Every [exn] is an
    instance of [Exception], so [isinstance(result, Exception)] is the
    [inl] case. *)
Fixpoint collect (province : string) (pairs : list (string * (exn + json)))
    (valid_results : list record) (rate_limit_count : Z)
  : exn + (list record * Z) :=
  match pairs with
  | [] => inr (valid_results, rate_limit_count)
  | (sbd, result) :: rest =>
      match result with
      | inl _ => collect province rest valid_results (rate_limit_count + 1)
      | inr d =>
          success ← py_get d "success" JNull;
          if negb (truthy success) then
            collect province rest valid_results (rate_limit_count + 1)
          else
            data ← py_get d "data" (JArr []);
            items ← py_iter data;
            recs ← mapM (extract_item province sbd) items;
            collect province rest (valid_results ++ recs) rate_limit_count
      end
  end.

Definition batch_sbds (province : string) (start_serial batch_size : Z)
  : list string :=
  build_sbd province <$> py_range start_serial (start_serial + batch_size).

(** [results] of [asyncio.gather] with [return_exceptions=True], with
    the trace of each task. *)
Definition gather (sbds : list string) (year : Z)
  : list (list event * (exn + json)) :=
  (λ sbd, fetch (build_request_url sbd year) 3) <$> sbds.

Definition fetch_batch (province : string) (start_serial batch_size year : Z)
  : batch_run :=
  let sbds := batch_sbds province start_serial batch_size in
  let runs := gather sbds year in
  let out :=
    '(valid_results, rate_limit_count) ← collect province (zip sbds runs.*2) [] 0;
    ratio ← true_div rate_limit_count batch_size;
    mret (valid_results, Qle_bool RATE_LIMIT_THRESHOLD ratio) in
  {| tasks := runs.*1;
     cooldown := match out with inr (_, true) => [Sleep 60] | _ => [] end;
     returned := fst <$> out |}.

(** *** The region scanner *)

(** [["SBD", "TinhId"] + subjects] *)
Definition header : row := JStr <$> ["SBD"; "TinhId"] ++ worker_subjects.

(** [[item["sbd"], item["tinh_id"]] + [item["data"][subj] for subj in subjects]] *)
Definition row_of (item : record) : exn + row :=
  scores ← mapM (py_getitem (rec_data item)) worker_subjects;
  mret (JStr (rec_sbd item) :: rec_tinh_id item :: scores).

(** [for item in batch_results: await writer.writerow(...)]: the rows reach
    the file one at a time. *)
Fixpoint write_rows (f : list row) (items : list record)
  : list row * option exn :=
  match items with
  | [] => (f, None)
  | item :: rest =>
      match row_of item with
      | inl e => (f, Some e)
      | inr r => write_rows (f ++ [r]) rest
      end
  end.

Inductive step_outcome : Type :=
| Next
| Break
| Raised (e : exn).

(** One iteration of [while serial <= max_serial]. *)
Definition scan_step (batch_size : Z) (province : string) (year : Z)
    (st : scan_state) : scan_state * step_outcome :=
  let run := fetch_batch province (serial st) batch_size year in
  match returned run with
  | inl e =>
      ({| file := file st; total := total st;
          consecutive_misses := consecutive_misses st; serial := serial st;
          trace := trace st ++ [RunBatch (serial st) run] |}, Raised e)
  | inr batch_results =>
      let tr := trace st ++ [RunBatch (serial st) run;
                             Wait DELAY_BETWEEN_REQUESTS] in
      match batch_results with
      | [] =>
          let misses := consecutive_misses st + batch_size in
          if MAX_CONSECUTIVE_MISSES <=? misses then
            ({| file := file st; total := total st;
                consecutive_misses := misses; serial := serial st;
                trace := tr |}, Break)
          else
            ({| file := file st; total := total st;
                consecutive_misses := misses;
                serial := serial st + batch_size; trace := tr |}, Next)
      | _ :: _ =>
          let tot := total st + Z.of_nat (length batch_results) in
          match write_rows (file st) batch_results with
          | (f, Some e) =>
              ({| file := f; total := tot; consecutive_misses := 0;
                  serial := serial st; trace := tr |}, Raised e)
          | (f, None) =>
              if MAX_CONSECUTIVE_MISSES <=? 0 then
                ({| file := f; total := tot; consecutive_misses := 0;
                    serial := serial st; trace := tr |}, Break)
              else
                ({| file := f; total := tot; consecutive_misses := 0;
                    serial := serial st + batch_size; trace := tr |}, Next)
          end
      end
  end.

Definition max_serial : Z := 150000.

(** The [while] loop, run for at most [fuel] iterations: [None] when the
    fuel does not suffice, otherwise the final state and the exception
    that ended the scan, if any. *)
Fixpoint scan_loop (fuel : nat) (batch_size : Z) (province : string)
    (year : Z) (st : scan_state) : option (scan_state * option exn) :=
  if serial st <=? max_serial then
    match fuel with
    | O => None
    | S fuel' =>
        match scan_step batch_size province year st with
        | (st', Next) => scan_loop fuel' batch_size province year st'
        | (st', Break) => Some (st', None)
        | (st', Raised e) => Some (st', Some e)
        end
    end
  else Some (st, None).

(** [worker_scan_province] with the module constant [BATCH_SIZE] as a
    parameter.  [existing] is the content of the region's file before the
    scan, [None] when the file does not exist (then the header row is
    written; the byte-order mark and the CSV encoding are left out). *)
Definition worker_scan_province_with (batch_size : Z) (fuel : nat)
    (province : string) (year : Z) (existing : option (list row))
  : option (scan_state * option exn) :=
  scan_loop fuel batch_size province year
    {| file := default [header] existing; total := 0;
       consecutive_misses := 0; serial := 1; trace := [] |}.

Definition worker_scan_province :
  nat → string → Z → option (list row) → option (scan_state * option exn) :=
  worker_scan_province_with BATCH_SIZE.

(** *** The orchestrator *)

(** [for province in PROVINCE_CODES: await worker_scan_province(...)], over
    the files of the output directory, keyed by region code.  A scan that
    raises ends the crawl. *)
Fixpoint main_loop (fuel : nat) (provinces : list string)
    (files : gmap string (list row))
  : option (gmap string (list row) * option exn) :=
  match provinces with
  | [] => Some (files, None)
  | province :: rest =>
      match worker_scan_province fuel province 2025 (files !! province) with
      | None => None
      | Some (st, Some e) => Some (<[province := file st]> files, Some e)
      | Some (st, None) => main_loop fuel rest (<[province := file st]> files)
      end
  end.

Definition main (fuel : nat) (files : gmap string (list row))
  : option (gmap string (list row) * option exn) :=
  main_loop fuel PROVINCE_CODES files.

End Crawl.

(** ** merged.py and merged_csv.py *)

(** Both scripts read every per-region table, concatenate them and drop the
    rows whose [SBD] was seen before ([keep="first"], the default).  The
    scripts differ in the type of the [SBD] column: [merged.py] lets pandas
    infer it, [merged_csv.py] reads it as a string.  [R] is the type of a
    row and [SBD] the column accessor. *)
Section Merge.

Context {K : Type} `{Countable K} {R : Type} (SBD : R → K).

(** [pd.concat(df_list, ignore_index=True)]; no table at all is an error. *)
Definition pd_concat (df_list : list (list R)) : exn + list R :=
  match df_list with
  | [] => inl ValueError
  | _ => inr (concat df_list)
  end.

Fixpoint drop_duplicates_from (seen : gset K) (df : list R) : list R :=
  match df with
  | [] => []
  | r :: rest =>
      if decide (SBD r ∈ seen) then drop_duplicates_from seen rest
      else r :: drop_duplicates_from ({[SBD r]} ∪ seen) rest
  end.

(** [df.drop_duplicates(subset="SBD")] *)
Definition drop_duplicates (df : list R) : list R :=
  drop_duplicates_from ∅ df.

Definition merged_df (df_list : list (list R)) : exn + list R :=
  df ← pd_concat df_list;
  mret (drop_duplicates df).

End Merge.

(** * Vocabulary of the properties *)

(** A decoded body that is a confirmed absence: an object whose success
    flag is missing or not true, or whose result count is missing or not
    positive. *)
Inductive confirmed_absent : json → Prop :=
| absent_no_flag m :
    truthy (default JNull (m !! "success")) = false →
    confirmed_absent (JObj m)
| absent_no_total m :
    m !! "total" = None → confirmed_absent (JObj m)
| absent_zero_total m q :
    m !! "total" = Some (JNum q) → (q <= 0)%Q → confirmed_absent (JObj m).

(** The sleeps of a trace, summed between consecutive requests:
    [delays_before] has, for each request, the time slept since the
    previous request (or the start); [delays_after], the time slept from
    that request to the next one (or the end). *)
Fixpoint delays_before (pending : Q) (evs : list event) : list Q :=
  match evs with
  | [] => []
  | Sleep d :: rest => delays_before (pending + d) rest
  | Get _ :: rest => pending :: delays_before 0 rest
  end.

Fixpoint sleep_prefix (evs : list event) : Q :=
  match evs with
  | Sleep d :: rest => (d + sleep_prefix rest)%Q
  | _ => 0%Q
  end.

Fixpoint delays_after (evs : list event) : list Q :=
  match evs with
  | [] => []
  | Get _ :: rest => sleep_prefix rest :: delays_after rest
  | Sleep _ :: rest => delays_after rest
  end.

Fixpoint requests (evs : list event) : nat :=
  match evs with
  | [] => 0
  | Get _ :: rest => S (requests rest)
  | Sleep _ :: rest => requests rest
  end.


(** *** Batches *)

(** A fetch counts as a success when it returned a dict whose success flag
    is true; an exception and the no-data dict do not. *)
Definition successful (result : exn + json) : bool :=
  match result with
  | inr (JObj m) => truthy (default JNull (m !! "success"))
  | _ => false
  end.

Definition non_success_count (results : list (exn + json)) : Z :=
  Z.of_nat (length (filter (λ r, successful r = false) results)).

Definition as_object (j : json) : option (gmap string json) :=
  match j with JObj m => Some m | _ => None end.

(** The rows of a payload that follows the endpoint's contract: an object
    whose ["data"], when present, is an array of objects. *)
Definition payload_rows (d : json) : option (list (gmap string json)) :=
  m ← as_object d;
  match default (JArr []) (m !! "data") with
  | JArr items => mapM as_object items
  | _ => None
  end.

Definition well_formed (d : json) : Prop := is_Some (payload_rows d).

(** The endpoint keeps its contract when every positive answer is well
    formed.  Nothing is asked of the other answers. *)
Definition keeps_contract (net : string → nat → response) : Prop :=
  ∀ url k body,
    net url k = Response 200 (inr body) →
    has_results body = inr true →
    well_formed body.

(** What [fetch] can hand to the batch executor when the endpoint keeps
    its contract: an exception, or a dict that is either not a success or a
    well-formed payload. *)
Definition result_ok (result : exn + json) : Prop :=
  match result with
  | inl _ => True
  | inr d => (∃ m, d = JObj m) ∧ (successful result = true → well_formed d)
  end.

(** The Record of one payload row: identifier, region id (the requested
    region when the row has none) and the 14 fields in their fixed order,
    [-1] standing for a field the row lacks. *)
Definition SUBJECTS : list string :=
  ["TOAN"; "VAN"; "NGOAI_NGU"; "LI"; "HOA"; "SINH"; "SU"; "DIA";
   "GIAO_DUC_CONG_DAN"; "TIN_HOC"; "CN_CONG_NGHIEP"; "CN_NONG_NGHIEP";
   "GDKT_PL"; "TONGDIEM"].

Definition record_of_row (province sbd : string) (item : gmap string json)
  : record :=
  {| rec_sbd := sbd;
     rec_tinh_id := default (JStr province) (item !! "TinhId");
     rec_data := (λ subj, (subj, default (JNum (-1)) (item !! subj))) <$> SUBJECTS |}.

(** The confirmed Records of one dispatched identifier. *)
Definition confirmed_records (province : string) (p : string * (exn + json))
  : list record :=
  match p.2 with
  | inr d =>
      if successful p.2
      then record_of_row province p.1 <$> default [] (payload_rows d)
      else []
  | inl _ => []
  end.

(** The identifiers dispatched by a batch, each with the result of its
    fetch. *)
Definition batch_results (net : string → nat → response) (rng : string → nat → N)
    (province : string) (start_serial batch_size year : Z)
  : list (string * (exn + json)) :=
  let sbds := batch_sbds province start_serial batch_size in
  zip sbds (gather net rng sbds year).*2.

(** *** Scans *)

(** A Record as the batch executor builds them. *)
Definition extracted (r : record) : Prop :=
  ∃ province sbd item, r = record_of_row province sbd item.

(** The number of batches a scan ran. *)
Fixpoint batches (tr : list scan_event) : nat :=
  match tr with
  | [] => 0
  | RunBatch _ _ :: rest => S (batches rest)
  | Wait _ :: rest => batches rest
  end.

(** [ceil(a / b)] for positive [b]. *)
Definition ceil_div (a b : Z) : Z := (a + b - 1) / b.

(** *** Concrete oracles *)

Definition always (r : response) : string → nat → response := λ _ _, r.

Definition rng_const (bits : N) : string → nat → N := λ _ _, bits.

(** A server that knows one candidate, [01000002], and answers 429 for
    [01000003]. *)
Definition one_candidate (url : string) (k : nat) : response :=
  if bool_decide (url = build_request_url "01000002" 2025) then
    Response 200 (inr (JObj {[
      "success" := JBool true; "total" := JNum 1;
      "data" := JArr [JObj {[ "TOAN" := JNum (15 # 2); "TinhId" := JNum 1 ]}] ]}))
  else if bool_decide (url = build_request_url "01000003" 2025) then
    Response 429 (inl JSONDecodeError)
  else Response 200 (inr (JObj {[ "success" := JBool false ]})).

(** A server that answers every request with a positive payload without
    rows. *)
Definition no_rows : string → nat → response :=
  always (Response 200 (inr (JObj {[
    "success" := JBool true; "total" := JNum 1; "data" := JArr [] ]}))).

Definition no_data : string → nat → response :=
  always (Response 200 (inr (JObj {[ "success" := JBool false ]}))).

(** A server that fails in every way for the first six candidates of
    region 01, knows the seventh, and answers 500 otherwise. *)
Definition flaky (url : string) (k : nat) : response :=
  if bool_decide (url = build_request_url "01000001" 2025) then
    Raises TimeoutError
  else if bool_decide (url = build_request_url "01000002" 2025) then
    Raises ClientError
  else if bool_decide (url = build_request_url "01000003" 2025) then
    Response 200 (inl JSONDecodeError)
  else if bool_decide (url = build_request_url "01000004" 2025) then
    Response 200 (inr (JArr []))
  else if bool_decide (url = build_request_url "01000005" 2025) then
    Response 200 (inr (JObj {[ "success" := JBool true; "total" := JNull ]}))
  else if bool_decide (url = build_request_url "01000006" 2025) then
    Raises OtherError
  else if bool_decide (url = build_request_url "01000007" 2025) then
    Response 200 (inr (JObj {[
      "success" := JBool true; "total" := JNum 1;
      "data" := JArr [JObj {[ "VAN" := JNum 8 ]}] ]}))
  else Response 500 (inl JSONDecodeError).

(** *** Further vocabulary *)

(** The time a trace sleeps in all. *)
Fixpoint total_sleep (evs : list event) : Q :=
  match evs with
  | [] => 0%Q
  | Sleep d :: rest => (d + total_sleep rest)%Q
  | Get _ :: rest => total_sleep rest
  end.

(** The answers [fetch] retries: a timeout, raised by the request or while
    the body is read; a status other than 200 and 429, or a client error;
    any of these or a 429. *)
Definition timed_out (r : response) : Prop :=
  r = Raises TimeoutError ∨ r = Response 200 (inl TimeoutError).

Definition errored (r : response) : Prop :=
  match r with
  | Response status body =>
      (status ≠ 200 ∧ status ≠ 429) ∨ (status = 200 ∧ body = inl ClientError)
  | Raises e => e = ClientError
  end.

Definition retried (r : response) : Prop :=
  timed_out r ∨ errored r ∨ ∃ body, r = Response 429 body.

(** A positive payload with one row, for every identifier. *)
Definition all_found : string → nat → response :=
  always (Response 200 (inr (JObj {[
    "success" := JBool true; "total" := JNum 1;
    "data" := JArr [JObj {[ "TOAN" := JNum 9 ]}] ]}))).

(** Two timeouts, then the payload. *)
Definition third_time_lucky (url : string) (k : nat) : response :=
  match k with
  | 0%nat => Raises TimeoutError
  | 1%nat => Response 503 (inl JSONDecodeError)
  | _ => all_found url k
  end.

(** A positive dict whose rows cannot be read: ["data"] is an array with
    an entry that is not an object, or is [null], a number or a boolean. *)
Definition malformed (d : json) : Prop :=
  ∃ m, d = JObj m
       ∧ truthy (default JNull (m !! "success")) = true
       ∧ match default (JArr []) (m !! "data") with
         | JArr items => ∃ item, item ∈ items ∧ as_object item = None
         | JNull | JBool _ | JNum _ => True
         | _ => False
         end.

(** A server whose positive payloads carry a number where a row should
    be. *)
Definition bad_row : string → nat → response :=
  always (Response 200 (inr (JObj {[
    "success" := JBool true; "total" := JNum 1; "data" := JArr [JNum 5] ]}))).

(** What a scan's trace tells: the serial each batch started at, the
    Records the batches returned, in order, and the number of batches at
    the end of the trace that returned no Record. *)
Definition found (run : batch_run) : list record :=
  match returned run with inr recs => recs | inl _ => [] end.

Fixpoint batch_starts (tr : list scan_event) : list Z :=
  match tr with
  | [] => []
  | RunBatch start_serial _ :: rest => start_serial :: batch_starts rest
  | Wait _ :: rest => batch_starts rest
  end.

Fixpoint trace_records (tr : list scan_event) : list record :=
  match tr with
  | [] => []
  | RunBatch _ run :: rest => found run ++ trace_records rest
  | Wait _ :: rest => trace_records rest
  end.

Definition streak_step (streak : Z) (ev : scan_event) : Z :=
  match ev with
  | RunBatch _ run =>
      match returned run with
      | inr [] => streak + 1
      | inr (_ :: _) => 0
      | inl _ => streak
      end
  | Wait _ => streak
  end.

Definition miss_streak (tr : list scan_event) : Z :=
  fold_left streak_step tr 0.

(** The values of the table row of a Record. *)
Definition row_values (r : record) : row :=
  JStr (rec_sbd r) :: rec_tinh_id r :: (rec_data r).*2.

(** The table row of a Record: the identifier, the region id, then for each
    subject of the header, in order, the Record's field of that name. *)
Definition row_for (item : record) (rw : row) : Prop :=
  ∃ scores,
    rw = JStr (rec_sbd item) :: rec_tinh_id item :: scores
    ∧ Forall2 (λ subj v, py_getitem (rec_data item) subj = inr v)
        worker_subjects scores.

(** Three candidates without data around one, [01000002], whose positive
    payload carries a number where a row should be. *)
Definition bad_row_among_misses (url : string) (k : nat) : response :=
  if bool_decide (url = build_request_url "01000002" 2025)
  then bad_row url k else no_data url k.

(** The double nearest to a positive rational, ties to even (binary64,
    normal range): [binade q] is the exponent [e] with [2^e <= q < 2^(e+1)],
    and doubles in that range are the multiples of [2^(e - 52)]. *)
Definition binade (q : Q) : Z :=
  let e := Z.log2 (Qnum q) - Z.log2 (Z.pos (Qden q)) in
  if Qle_bool (2 ^ e) q then e else e - 1.

Definition round_half_even (q : Q) : Z :=
  let f := Qfloor q in
  match (q - inject_Z f ?= 1 # 2)%Q with
  | Lt => f
  | Gt => f + 1
  | Eq => if Z.even f then f else f + 1
  end.

Definition double_nearest (q : Q) : Q :=
  let ulp := (2 ^ (binade q - 52))%Q in
  (inject_Z (round_half_even (q / ulp)) * ulp)%Q.

(** * Properties *)

(** ** Decimal numerals *)

Lemma digit_val_char d : 0 <= d < 10 → digit_val (digit_char d) = Some d.
Proof.
  intros Hd.
  assert (Hcases : d = 0 ∨ d = 1 ∨ d = 2 ∨ d = 3 ∨ d = 4 ∨ d = 5 ∨ d = 6
                   ∨ d = 7 ∨ d = 8 ∨ d = 9) by lia.
  repeat (destruct Hcases as [-> | Hcases]; [reflexivity |]).
  by subst.
Qed.

(** Reading the digits of [n] most significant first continues the
    numeral read so far. *)
Lemma int_of_digits_dec_rev fuel : ∀ n acc tail,
  0 <= n < 2 ^ Z.of_nat fuel →
  int_of_digits acc (reverse (dec_digits_rev fuel n) ++ tail)
  = int_of_digits
      (acc * 10 ^ Z.of_nat (length (dec_digits_rev fuel n)) + n) tail.
Proof.
  induction fuel as [| fuel IH]; intros n acc tail Hn.
  - cbn in *. f_equal. lia.
  - cbn [dec_digits_rev]. destruct (Z.ltb_spec n 10) as [Hlt | Hge].
    + cbn. rewrite digit_val_char by lia. f_equal. lia.
    + rewrite reverse_cons, <- app_assoc. cbn [app length].
      assert (Hq : 0 <= n / 10 < 2 ^ Z.of_nat fuel).
      { split; [apply Z.div_pos; lia |].
        apply Z.div_lt_upper_bound; [lia |].
        rewrite Nat2Z.inj_succ, Z.pow_succ_r in Hn by lia. lia. }
      rewrite IH by exact Hq. cbn [int_of_digits].
      rewrite digit_val_char by (apply Z.mod_pos_bound; lia).
      f_equal. rewrite Nat2Z.inj_succ, Z.pow_succ_r by lia.
      pose proof (Z.div_mod n 10). lia.
Qed.

Lemma length_dec_digits_rev fuel : ∀ n k,
  0 <= n < 10 ^ Z.of_nat (S k) →
  (length (dec_digits_rev fuel n) <= S k)%nat.
Proof.
  induction fuel as [| fuel IH]; intros n k Hn; [cbn; lia |].
  cbn [dec_digits_rev]. destruct (Z.ltb_spec n 10) as [Hlt | Hge].
  - cbn. lia.
  - destruct k as [| k]; [cbn in Hn; lia |].
    cbn [length]. apply le_n_S, IH.
    split; [apply Z.div_pos; lia |].
    apply Z.div_lt_upper_bound; [lia |].
    rewrite (Nat2Z.inj_succ (S k)), Z.pow_succ_r in Hn by lia. lia.
Qed.

Lemma log2_fuel n : 0 <= n → 0 <= n < 2 ^ Z.of_nat (S (Z.to_nat (Z.log2 n))).
Proof.
  intros Hn. split; [done |].
  rewrite Nat2Z.inj_succ, Z2Nat.id by apply Z.log2_nonneg.
  destruct (decide (n = 0)) as [-> | Hne]; [done |].
  apply Z.log2_spec. lia.
Qed.

Lemma int_of_digits_zeros k : ∀ cs,
  int_of_digits 0 (replicate k "0"%char ++ cs) = int_of_digits 0 cs.
Proof. induction k as [| k IH]; intros cs; [done |]. cbn. apply IH. Qed.

Lemma int_of_dec_digits n : 0 <= n → int_of_digits 0 (dec_digits n) = Some n.
Proof.
  intros Hn. unfold dec_digits.
  rewrite <- (app_nil_r (reverse _)).
  rewrite int_of_digits_dec_rev by (by apply log2_fuel). done.
Qed.

Lemma length_dec_digits n k :
  0 <= n < 10 ^ Z.of_nat (S k) → (length (dec_digits n) <= S k)%nat.
Proof.
  intros Hn. unfold dec_digits. rewrite length_reverse.
  by apply length_dec_digits_rev.
Qed.

(** ** Strings *)

Lemma length_string_of_list (cs : list ascii) :
  String.length (String.string_of_list_ascii cs) = length cs.
Proof. induction cs as [| c cs IH]; cbn; congruence. Qed.

Lemma substring_0_length s : String.substring 0 (String.length s) s = s.
Proof. induction s as [| c s IH]; cbn; congruence. Qed.

Lemma substring_0_0 s : String.substring 0 0 s = "".
Proof. by destruct s. Qed.

Lemma append_cons c s t : String c s +:+ t = String c (s +:+ t).
Proof. reflexivity. Qed.

Lemma append_nil t : "" +:+ t = t.
Proof. reflexivity. Qed.

(** ** Identifiers (C7) *)

Lemma format_0d_nonneg (width : nat) n :
  0 <= n →
  format_0d width n
  = String.string_of_list_ascii
      (replicate (width - length (dec_digits n)) "0"%char ++ dec_digits n).
Proof.
  intros Hn. unfold format_0d.
  by destruct (Z.ltb_spec n 0) as [? | _]; [lia |].
Qed.

Lemma length_format_0d (k : nat) n :
  0 <= n < 10 ^ Z.of_nat (S k) → String.length (format_0d (S k) n) = S k.
Proof.
  intros Hn. rewrite format_0d_nonneg by lia.
  rewrite length_string_of_list, length_app, length_replicate.
  pose proof (length_dec_digits n k Hn). lia.
Qed.

(** C7. For a region code of two characters and a serial that fits six
    digits, [build_sbd] yields a string of 2 + 6 = 8 characters, and its
    first two characters and the numeral in its last six are the region
    code and the serial it was built from. *)
Theorem build_sbd_roundtrip (province : string) (serial : Z) :
  String.length province = 2%nat →
  0 <= serial < 10 ^ 6 →
  String.length (build_sbd province serial) = (2 + SERIAL_DIGITS)%nat
  ∧ decode_sbd (build_sbd province serial) = Some (province, serial).
Proof.
  intros Hlen Hserial.
  destruct province as [| c1 [| c2 [| c3 rest]]]; try discriminate Hlen.
  unfold build_sbd, decode_sbd, SERIAL_DIGITS.
  pose proof (length_format_0d 5 serial Hserial) as Hfmt.
  rewrite !append_cons, append_nil.
  cbn [String.length String.substring].
  split; [by rewrite Hfmt |].
  rewrite <- Hfmt at 1. rewrite substring_0_length.
  rewrite format_0d_nonneg by lia.
  rewrite String.list_ascii_of_string_of_list_ascii.
  rewrite int_of_digits_zeros, int_of_dec_digits by lia.
  by rewrite substring_0_0.
Qed.

Lemma build_sbd_roundtrip_witness :
  String.length (build_sbd "64" 150000) = 8%nat
  ∧ decode_sbd (build_sbd "64" 150000) = Some ("64", 150000).
Proof. apply (build_sbd_roundtrip "64" 150000); [reflexivity | lia]. Defined.

(** ** The fetcher (C5, C2) *)

Lemma random_random_range bits :
  (0 <= random_random bits)%Q ∧ (random_random bits < 1)%Q.
Proof.
  unfold random_random, Qle, Qlt. cbn [Qnum Qden].
  assert (H : (bits `mod` 2 ^ 53 < 2 ^ 53)%N) by (by apply N.mod_lt).
  apply N2Z.inj_lt in H. revert H.
  generalize (Z.of_N (bits `mod` 2 ^ 53)) (N2Z.is_nonneg (bits `mod` 2 ^ 53)).
  intros x Hx0 Hx. change (Z.of_N (2 ^ 53)) with (Z.pos (2 ^ 53)) in Hx.
  generalize dependent (Z.pos (2 ^ 53)). intros. lia.
Qed.

Lemma uniform_range (b : Q) bits :
  (0 < b)%Q →
  (0 <= uniform 0 b (random_random bits))%Q
  ∧ (uniform 0 b (random_random bits) < b)%Q.
Proof.
  intros Hb. destruct (random_random_range bits) as [H0 H1].
  unfold uniform. split; [nra | nra].
Qed.

Section FetchProperties.

Context (net : string → nat → response) (rng : string → nat → N).

Lemma has_results_absent body :
  confirmed_absent body → has_results body = inr false.
Proof.
  intros [m Hflag | m Htotal | m q Htotal Hq]; unfold has_results; cbn.
  - by rewrite Hflag.
  - destruct (truthy _); [| done]. by rewrite Htotal.
  - destruct (truthy _); [| done]. rewrite Htotal. cbn.
    f_equal. apply negb_false_iff. by apply Qle_bool_iff.
Qed.

(** C5. When an attempt receives HTTP 200 and the decoded body is a
    confirmed absence, [fetch] returns the no-data outcome at once: the
    trace from that attempt on is the one request, with no sleep and no
    further request, however many attempts were left. *)
Theorem fetch_absent_not_retried (url : string) (attempt n : nat) body :
  net url attempt = Response 200 (inr body) →
  confirmed_absent body →
  fetch_from net rng url attempt (S n) = ([Get url], inr NO_DATA).
Proof.
  intros Hnet Habs. cbn [fetch_from]. unfold fetch_attempt.
  rewrite Hnet. cbn. by rewrite (has_results_absent body Habs).
Qed.

Lemma fetch_attempt_429 url k body :
  net url k = Response 429 body →
  fetch_attempt net rng url k
  = Continue (inject_Z ((Z.of_nat k + 1) * 10)
              + uniform 0 2 (random_random (rng url k))).
Proof. intros Hnet. unfold fetch_attempt. by rewrite Hnet. Qed.

(** C2, as the code has it. Under HTTP 429 on every attempt, [fetch]
    makes exactly 3 requests, sleeps nothing before the first one, sleeps
    k * 10 seconds plus a jitter after the k-th one (k = 1, 2, 3), and
    returns the no-data outcome.  The jitter lies between 0 and 2 seconds,
    both included: the value drawn is below 2, but the program rounds the
    sum to a double, which can be k * 10 + 2 itself. *)
Theorem fetch_429_backoff (url : string) :
  (∀ k, ∃ body, net url k = Response 429 body) →
  let evs := (fetch net rng url 3).1 in
  (fetch net rng url 3).2 = inr NO_DATA
  ∧ requests evs = 3%nat
  ∧ delays_before 0 evs !! 0%nat = Some 0%Q
  ∧ ∀ k : nat, (1 <= k <= 3)%nat →
      ∃ d j : Q, delays_after evs !! (k - 1)%nat = Some d
                 ∧ (d == inject_Z (Z.of_nat k * 10) + j)%Q
                 ∧ (0 <= j)%Q ∧ (j <= 2)%Q.
Proof.
  intros Hnet.
  destruct (Hnet 0%nat) as [b0 H0], (Hnet 1%nat) as [b1 H1],
    (Hnet 2%nat) as [b2 H2].
  unfold fetch. cbn [fetch_from].
  rewrite (fetch_attempt_429 _ _ _ H0), (fetch_attempt_429 _ _ _ H1),
    (fetch_attempt_429 _ _ _ H2).
  cbn [fst snd requests delays_before delays_after sleep_prefix].
  repeat split; try done.
  intros k Hk.
  assert (Hcases : k = 1%nat ∨ k = 2%nat ∨ k = 3%nat) by lia.
  exists (inject_Z ((Z.of_nat (k - 1) + 1) * 10)
          + uniform 0 2 (random_random (rng url (k - 1))) + 0)%Q,
    (uniform 0 2 (random_random (rng url (k - 1)))).
  split; [by destruct Hcases as [-> | [-> | ->]] |].
  destruct (uniform_range 2 (rng url (k - 1)) eq_refl) as [Hj0 Hj2].
  split; [| split; [done | by apply Qlt_le_weak]].
  rewrite Qplus_0_r. replace (Z.of_nat (k - 1) + 1) with (Z.of_nat k) by lia.
  reflexivity.
Qed.

End FetchProperties.

Lemma fetch_absent_not_retried_witness :
  fetch (always (Response 200 (inr (JObj {[ "success" := JBool true;
                                            "total" := JNum 0 ]}))))
    (rng_const 0) "u" 3
  = ([Get "u"], inr NO_DATA).
Proof.
  apply (fetch_absent_not_retried _ _ "u" 0 2
           (JObj {[ "success" := JBool true; "total" := JNum 0 ]}));
    [reflexivity | by apply (absent_zero_total _ 0)].
Defined.

Lemma fetch_429_backoff_witness :
  let evs := (fetch (always (Response 429 (inl JSONDecodeError)))
                (rng_const 7) "u" 3).1 in
  (fetch (always (Response 429 (inl JSONDecodeError))) (rng_const 7) "u" 3).2
  = inr NO_DATA
  ∧ requests evs = 3%nat
  ∧ delays_before 0 evs !! 0%nat = Some 0%Q
  ∧ ∀ k : nat, (1 <= k <= 3)%nat →
      ∃ d j : Q, delays_after evs !! (k - 1)%nat = Some d
                 ∧ (d == inject_Z (Z.of_nat k * 10) + j)%Q
                 ∧ (0 <= j)%Q ∧ (j <= 2)%Q.
Proof.
  apply (fetch_429_backoff (always (Response 429 (inl JSONDecodeError)))
           (rng_const 7) "u").
  intros k. by eexists.
Defined.

(** C2, as the specification words it, fails. Under HTTP 429 on every
    attempt nothing is slept before attempt 1, and less than 12 seconds
    before attempt 2, where the claim asks for 10 and 20 seconds plus
    jitter. *)
Lemma backoff_before_attempt_counterexample :
  let evs := (fetch (always (Response 429 (inl JSONDecodeError)))
                (rng_const 7) "u" 3).1 in
  delays_before 0 evs !! 0%nat = Some 0%Q
  ∧ (∃ d, delays_before 0 evs !! 1%nat = Some d ∧ (d < 12)%Q)
  ∧ ¬ (∀ k : nat, (1 <= k <= 3)%nat →
         ∃ d j : Q, delays_before 0 evs !! (k - 1)%nat = Some d
                    ∧ (d == inject_Z (Z.of_nat k * 10) + j)%Q
                    ∧ (0 <= j)%Q ∧ (j < 2)%Q).
Proof.
  intros evs. split; [reflexivity |]. split.
  - eexists. split; [reflexivity |]. reflexivity.
  - intros Hclaim.
    destruct (Hclaim 2%nat ltac:(lia)) as (d & j & Hd & Heq & Hj0 & Hj2).
    vm_compute in Hd. injection Hd as <-.
    change (inject_Z (Z.of_nat 2 * 10)) with 20%Q in Heq. lra.
Qed.

(** ** The batch executor (C6, C1, C3, C8) *)

Lemma extract_item_object province sbd (item : gmap string json) :
  extract_item province sbd (JObj item) = inr (record_of_row province sbd item).
Proof. reflexivity. Qed.

Lemma extract_items_objects province sbd :
  ∀ (items : list json) (rows : list (gmap string json)),
  mapM as_object items = Some rows →
  mapM (extract_item province sbd) items
  = inr (record_of_row province sbd <$> rows).
Proof.
  induction items as [| item items IH]; intros rows Hrows.
  - by injection Hrows as <-.
  - cbn in Hrows. destruct item as [| | | | | m]; try discriminate Hrows.
    cbn in Hrows. destruct (mapM as_object items) as [rows' |] eqn:Hrest;
      [| discriminate Hrows].
    injection Hrows as <-.
    change (mapM (extract_item province sbd) (JObj m :: items))
      with (y ← extract_item province sbd (JObj m);
            k ← mapM (extract_item province sbd) items; mret (y :: k)).
    by rewrite extract_item_object, (IH rows' eq_refl).
Qed.

Lemma has_results_object d b : has_results d = inr b → ∃ m, d = JObj m.
Proof. destruct d; try discriminate. by eexists. Qed.

Lemma fetch_from_result_ok net rng url :
  keeps_contract net →
  ∀ n attempt, result_ok (fetch_from net rng url attempt n).2.
Proof.
  intros Hnet. induction n as [| n IH]; intros attempt.
  - cbn. split; [by eexists | discriminate].
  - cbn [fetch_from].
    destruct (fetch_attempt net rng url attempt) as [r | e | w] eqn:Hatt.
    + cbn. unfold fetch_attempt in Hatt.
      destruct (net url attempt) as [status body | e] eqn:Hresp.
      * destruct (status =? 200) eqn:Hstatus.
        -- apply Z.eqb_eq in Hstatus as ->.
           destruct body as [e | json_data].
           ++ by destruct e.
           ++ destruct (has_results json_data) as [e | [|]] eqn:Hres.
              ** by destruct e.
              ** injection Hatt as <-. split.
                 --- by eapply has_results_object.
                 --- intros _. by eapply Hnet.
              ** injection Hatt as <-. split; [by eexists | discriminate].
        -- by destruct (status =? 429).
      * by destruct e.
    + done.
    + specialize (IH (S attempt)).
      by destruct (fetch_from net rng url (S attempt) n).
Qed.

Lemma non_success_count_cons result results :
  non_success_count (result :: results)
  = (if successful result then 0 else 1) + non_success_count results.
Proof.
  unfold non_success_count. rewrite filter_cons.
  destruct (successful result); case_decide; try done; cbn [length]; lia.
Qed.

Lemma collect_spec province : ∀ pairs valid_results rate_limit_count,
  Forall (λ p, result_ok p.2) pairs →
  collect province pairs valid_results rate_limit_count
  = inr (valid_results ++ concat (confirmed_records province <$> pairs),
         rate_limit_count + non_success_count pairs.*2).
Proof.
  induction pairs as [| [sbd result] pairs IH];
    intros valid cnt Hok.
  - cbn. rewrite app_nil_r. do 2 f_equal. unfold non_success_count. cbn. lia.
  - apply Forall_cons in Hok as [Hres Hok].
    rewrite !fmap_cons, non_success_count_cons. cbn [collect fst snd].
    destruct result as [e | d].
    + rewrite IH by done. cbn. do 2 f_equal. lia.
    + destruct Hres as [[m ->] Hwf]. cbn [py_get mbind exn_bind].
      unfold confirmed_records at 1. cbn [fst snd successful] in Hwf |- *.
      destruct (truthy (default JNull (m !! "success"))) eqn:Hsucc;
        cbn [negb].
      * destruct (Hwf eq_refl) as [rows Hrows]. rewrite Hrows. cbn [default].
        unfold payload_rows in Hrows. cbn in Hrows.
        destruct (default (JArr []) (m !! "data")) as [| | | | items |];
          try discriminate Hrows.
        cbn [py_iter mbind exn_bind].
        rewrite (extract_items_objects _ _ _ _ Hrows).
        cbn [mbind exn_bind]. unfold id.
        rewrite IH by done. cbn [concat fmap list_fmap].
        rewrite <- app_assoc. do 2 f_equal; lia.
      * rewrite IH by done. cbn. do 2 f_equal. lia.
Qed.

Lemma zip_fmap_diag {A B} (g : A → B) (l : list A) :
  zip l (g <$> l) = (λ x, (x, g x)) <$> l.
Proof. induction l as [| x l IH]; cbn; congruence. Qed.

Lemma batch_results_fmap net rng province start_serial batch_size year :
  batch_results net rng province start_serial batch_size year
  = (λ sbd, (sbd, (fetch net rng (build_request_url sbd year) 3).2))
      <$> batch_sbds province start_serial batch_size.
Proof.
  unfold batch_results, gather. rewrite <- list_fmap_compose.
  apply zip_fmap_diag.
Qed.

Lemma batch_results_ok net rng province start_serial batch_size year :
  keeps_contract net →
  Forall (λ p, result_ok p.2)
    (batch_results net rng province start_serial batch_size year).
Proof.
  intros Hnet. rewrite batch_results_fmap. apply Forall_fmap, Forall_true.
  intros sbd. apply fetch_from_result_ok, Hnet.
Qed.

Lemma ratio_threshold (c bs : Z) :
  0 < bs →
  Qle_bool RATE_LIMIT_THRESHOLD (inject_Z c / inject_Z bs) = true
  ↔ bs <= 2 * c.
Proof.
  intros Hbs. rewrite Qle_bool_iff.
  destruct bs as [| p | p]; try lia.
  unfold RATE_LIMIT_THRESHOLD, Qle, Qdiv, Qmult, Qinv, inject_Z.
  cbn [Qnum Qden]. lia.
Qed.

Lemma ratio_nonzero (c bs : Z) :
  0 <= c → (1 # 2 <= inject_Z c / inject_Z bs)%Q → 0 < bs ∧ bs <= 2 * c.
Proof.
  intros Hc.
  destruct bs as [| p | p];
    unfold Qle, Qdiv, Qmult, Qinv, inject_Z; cbn [Qnum Qden]; lia.
Qed.

(** The batch executor on results that [result_ok] admits. *)
Lemma fetch_batch_spec_ok net rng province start_serial batch_size year :
  let pairs := batch_results net rng province start_serial batch_size year in
  let run := fetch_batch net rng province start_serial batch_size year in
  Forall (λ p, result_ok p.2) pairs →
  batch_size ≠ 0 →
  collect province pairs [] 0
  = inr (concat (confirmed_records province <$> pairs),
         non_success_count pairs.*2)
  ∧ returned run = inr (concat (confirmed_records province <$> pairs))
  ∧ cooldown run
    = if Qle_bool RATE_LIMIT_THRESHOLD
           (inject_Z (non_success_count pairs.*2) / inject_Z batch_size)
      then [Sleep 60] else [].
Proof.
  intros pairs run Hok Hbs.
  pose proof (collect_spec province pairs [] 0 Hok) as Hcollect.
  rewrite Z.add_0_l in Hcollect. cbn [app] in Hcollect.
  split; [done |]. subst run. unfold fetch_batch.
  fold (batch_results net rng province start_serial batch_size year).
  fold pairs. rewrite Hcollect.
  cbn [mbind exn_bind]. unfold true_div.
  destruct (Z.eqb_spec batch_size 0) as [? | _]; [done |].
  cbn [mbind exn_bind mret exn_ret fmap exn_fmap fst returned cooldown].
  split; [done |]. by destruct (Qle_bool _ _).
Qed.

(** The batch executor under an endpoint that keeps its contract. *)
Lemma fetch_batch_spec net rng province start_serial batch_size year :
  keeps_contract net →
  batch_size ≠ 0 →
  let pairs := batch_results net rng province start_serial batch_size year in
  let run := fetch_batch net rng province start_serial batch_size year in
  returned run = inr (concat (confirmed_records province <$> pairs))
  ∧ cooldown run
    = if Qle_bool RATE_LIMIT_THRESHOLD
           (inject_Z (non_success_count pairs.*2) / inject_Z batch_size)
      then [Sleep 60] else [].
Proof.
  intros Hnet Hbs pairs run.
  apply (fetch_batch_spec_ok net rng province start_serial batch_size year);
    [by apply batch_results_ok | done].
Qed.


Lemma keeps_contract_always (r : response) :
  (∀ body, r = Response 200 (inr body) →
           has_results body = inr true → well_formed body) →
  keeps_contract (always r).
Proof. intros Hr url k body. apply Hr. Qed.

Lemma no_data_contract : keeps_contract no_data.
Proof.
  apply keeps_contract_always. intros body [= <-]. discriminate.
Qed.

Lemma no_rows_contract : keeps_contract no_rows.
Proof.
  apply keeps_contract_always. intros body [= <-] _. by eexists.
Qed.

Lemma one_candidate_contract : keeps_contract one_candidate.
Proof.
  intros url k body. unfold one_candidate.
  repeat case_bool_decide; intros [= <-]; [by eexists | discriminate].
Qed.

Lemma non_success_count_nonneg results : 0 <= non_success_count results.
Proof. unfold non_success_count. lia. Qed.

(** C1, as the specification words it, fails: what [fetch_batch] returns
    does not determine the count of non-success outcomes.  Two batches of
    two identifiers return the same (empty) list, one with two non-success
    outcomes, the other with none. *)
Lemma count_not_returned_counterexample :
  ¬ ∃ count_of : exn + list record → Z,
      ∀ net : string → nat → response,
        count_of (returned (fetch_batch net (rng_const 0) "01" 1 2 2025))
        = non_success_count
            (batch_results net (rng_const 0) "01" 1 2 2025).*2.
Proof.
  intros [count_of Hcount].
  pose proof (Hcount no_data) as H1. pose proof (Hcount no_rows) as H2.
  vm_compute in H1, H2. congruence.
Qed.

(** C1, as the code has it. Under an endpoint that keeps its contract, a
    batch returns the list of the confirmed Records of its successful
    fetches, in dispatch order, and nothing else; the count of non-success
    outcomes stays inside the executor, where it decides the cooldown. *)
Theorem fetch_batch_returns_records net rng province start_serial batch_size year :
  keeps_contract net →
  0 < batch_size →
  let pairs := batch_results net rng province start_serial batch_size year in
  let run := fetch_batch net rng province start_serial batch_size year in
  returned run = inr (concat (confirmed_records province <$> pairs))
  ∧ (cooldown run = [Sleep 60] ∨ cooldown run = [])
  ∧ (cooldown run = [Sleep 60] ↔ batch_size <= 2 * non_success_count pairs.*2).
Proof.
  intros Hnet Hbs pairs run.
  destruct (fetch_batch_spec net rng province start_serial batch_size year
              Hnet ltac:(lia)) as [Hret Hcool].
  fold pairs run in Hret, Hcool. split; [done |].
  rewrite Hcool, <- (ratio_threshold _ _ Hbs).
  destruct (Qle_bool _ _); split; [by left | done | by right |].
  split; discriminate.
Qed.

Lemma fetch_batch_returns_records_witness :
  returned (fetch_batch one_candidate (rng_const 5) "01" 1 4 2025)
  = inr [record_of_row "01" "01000002"
           {[ "TOAN" := JNum (15 # 2); "TinhId" := JNum 1 ]}].
Proof.
  destruct (fetch_batch_returns_records one_candidate (rng_const 5) "01" 1 4
              2025 one_candidate_contract ltac:(lia)) as [Hret _].
  exact Hret.
Defined.

(** C3, as the code has it. Under an endpoint that keeps its contract,
    when the non-success outcomes of a batch, divided by [batch_size],
    reach 0.5, the executor sleeps 60 seconds after the fetches and then
    returns exactly the confirmed Records of the successful fetches. *)
Theorem fetch_batch_cooldown net rng province start_serial batch_size year :
  keeps_contract net →
  let pairs := batch_results net rng province start_serial batch_size year in
  let run := fetch_batch net rng province start_serial batch_size year in
  (1 # 2 <= inject_Z (non_success_count pairs.*2) / inject_Z batch_size)%Q →
  cooldown run = [Sleep 60]
  ∧ returned run = inr (concat (confirmed_records province <$> pairs)).
Proof.
  intros Hnet pairs run Hratio.
  apply ratio_nonzero in Hratio as [Hbs Hhalf];
    [| apply non_success_count_nonneg].
  destruct (fetch_batch_spec net rng province start_serial batch_size year
              Hnet ltac:(lia)) as [Hret Hcool].
  fold pairs run in Hret, Hcool. split; [| done].
  rewrite Hcool. by rewrite (proj2 (ratio_threshold _ _ Hbs) Hhalf).
Qed.

Lemma fetch_batch_cooldown_witness :
  cooldown (fetch_batch one_candidate (rng_const 5) "01" 1 4 2025)
  = [Sleep 60]
  ∧ returned (fetch_batch one_candidate (rng_const 5) "01" 1 4 2025)
    = inr [record_of_row "01" "01000002"
             {[ "TOAN" := JNum (15 # 2); "TinhId" := JNum 1 ]}].
Proof.
  apply (fetch_batch_cooldown one_candidate (rng_const 5) "01" 1 4 2025
           one_candidate_contract).
  vm_compute. discriminate.
Defined.

(** ** The region scanner (C10, C4, C8) *)

Lemma mapM_extract_extracted province sbd : ∀ (items : list json) recs,
  mapM (extract_item province sbd) items = inr recs → Forall extracted recs.
Proof.
  induction items as [| item items IH]; intros recs Hrecs.
  - injection Hrecs as <-. constructor.
  - change (mapM (extract_item province sbd) (item :: items))
      with (y ← extract_item province sbd item;
            k ← mapM (extract_item province sbd) items; mret (y :: k))
      in Hrecs.
    destruct item as [| | | | | m]; try discriminate Hrecs.
    rewrite extract_item_object in Hrecs. cbn [mbind exn_bind] in Hrecs.
    destruct (mapM (extract_item province sbd) items) as [e | recs'];
      [discriminate Hrecs |].
    injection Hrecs as <-. constructor; [by repeat eexists | by apply IH].
Qed.

Lemma collect_extracted province : ∀ pairs valid_results n valid_results' n',
  collect province pairs valid_results n = inr (valid_results', n') →
  Forall extracted valid_results → Forall extracted valid_results'.
Proof.
  induction pairs as [| [sbd result] pairs IH];
    intros valid n valid' n' Hcollect Hvalid.
  - by injection Hcollect as <- _.
  - cbn [collect] in Hcollect. destruct result as [e | d]; [by eapply IH |].
    destruct (py_get d "success" JNull) as [e | success];
      [discriminate Hcollect |].
    cbn [mbind exn_bind] in Hcollect.
    destruct (negb (truthy success)); [by eapply IH |].
    destruct (py_get d "data" (JArr [])) as [e | data];
      [discriminate Hcollect |].
    cbn [mbind exn_bind] in Hcollect.
    destruct (py_iter data) as [e | items]; [discriminate Hcollect |].
    cbn [mbind exn_bind] in Hcollect.
    destruct (mapM (extract_item province sbd) items) as [e | recs] eqn:Hrecs;
      [discriminate Hcollect |].
    cbn [mbind exn_bind] in Hcollect.
    eapply IH; [exact Hcollect |].
    apply Forall_app. split; [done | by eapply mapM_extract_extracted].
Qed.

Lemma fetch_batch_extracted net rng province start_serial batch_size year recs :
  returned (fetch_batch net rng province start_serial batch_size year)
  = inr recs →
  Forall extracted recs.
Proof.
  unfold fetch_batch. cbn [returned].
  destruct (collect province _ [] 0) as [e | [valid n]] eqn:Hcollect;
    [discriminate |].
  cbn [mbind exn_bind]. destruct (true_div n batch_size); [discriminate |].
  intros [= <-]. by eapply collect_extracted.
Qed.

Lemma row_of_extracted r :
  extracted r →
  row_of r = inr (JStr (rec_sbd r) :: rec_tinh_id r :: (rec_data r).*2)
  ∧ length (JStr (rec_sbd r) :: rec_tinh_id r :: (rec_data r).*2) = 16%nat.
Proof.
  intros (province & sbd & item & ->). split; reflexivity.
Qed.

Lemma write_rows_extracted : ∀ items f,
  Forall extracted items →
  ∃ rows, write_rows f items = (f ++ rows, None)
          ∧ Forall (λ rw, length rw = 16%nat) rows
          ∧ length rows = length items.
Proof.
  induction items as [| item items IH]; intros f Hitems.
  - exists []. by rewrite app_nil_r.
  - apply Forall_cons in Hitems as [Hitem Hitems].
    destruct (row_of_extracted item Hitem) as [Hrow Hmatch].
    destruct (IH (f ++ [JStr (rec_sbd item) :: rec_tinh_id item
                          :: (rec_data item).*2]) Hitems)
      as (rows & Hwrite & Hrows & Hlen).
    exists ((JStr (rec_sbd item) :: rec_tinh_id item :: (rec_data item).*2)
            :: rows).
    cbn [write_rows]. rewrite Hrow. cbn beta iota.
    split; [etrans; [exact Hwrite |]; by rewrite <- app_assoc |].
    split; [by constructor | cbn; lia].
Qed.

Lemma batches_snoc tr start_serial run :
  batches (tr ++ [RunBatch start_serial run]) = S (batches tr).
Proof. induction tr as [| [? ? | ?] tr IH]; cbn; congruence. Qed.

Lemma batches_snoc_wait tr start_serial run secs :
  batches (tr ++ [RunBatch start_serial run; Wait secs]) = S (batches tr).
Proof. induction tr as [| [? ? | ?] tr IH]; cbn; congruence. Qed.

Section ScanProperties.

Context (net : string → nat → response) (rng : string → nat → N).
Context (batch_size : Z) (province : string) (year : Z).

(** What one iteration does to the state. *)
Lemma scan_step_spec st st' o :
  scan_step net rng batch_size province year st = (st', o) →
  (∃ rows, file st' = file st ++ rows ∧ Forall (λ rw, length rw = 16%nat) rows)
  ∧ batches (trace st') = S (batches (trace st))
  ∧ match o with
    | Next => serial st' = serial st + batch_size
              ∧ consecutive_misses st' < MAX_CONSECUTIVE_MISSES
    | Break => serial st' = serial st
               ∧ MAX_CONSECUTIVE_MISSES <= consecutive_misses st'
    | Raised _ => serial st' = serial st
    end.
Proof.
  unfold scan_step.
  destruct (returned (fetch_batch net rng province (serial st) batch_size year))
    as [e | [| item items]] eqn:Hret.
  - intros [= <- <-]. cbn. rewrite batches_snoc.
    split; [exists []; by rewrite app_nil_r | done].
  - destruct (Z.leb_spec MAX_CONSECUTIVE_MISSES
                (consecutive_misses st + batch_size));
      intros [= <- <-]; cbn; rewrite batches_snoc_wait;
      (split; [exists []; by rewrite app_nil_r | done]).
  - apply fetch_batch_extracted in Hret.
    destruct (write_rows_extracted (item :: items) (file st) Hret)
      as (rows & -> & Hrows & _).
    change (MAX_CONSECUTIVE_MISSES <=? 0) with false. cbn beta iota.
    intros [= <- <-]. cbn. rewrite batches_snoc_wait.
    split; [by exists rows | done].
Qed.

(** The loop ends within [max_serial] iterations when the cursor moves
    forward; appended rows line up with the header, and a normal end
    means the miss threshold or the end of the serial range. *)
Lemma scan_loop_spec : ∀ fuel st,
  0 < batch_size →
  max_serial + 1 - serial st <= Z.of_nat fuel →
  ∃ st' err,
    scan_loop net rng fuel batch_size province year st = Some (st', err)
    ∧ (∃ rows, file st' = file st ++ rows ∧ Forall (λ rw, length rw = 16%nat) rows)
    ∧ (err = None →
       MAX_CONSECUTIVE_MISSES <= consecutive_misses st'
       ∨ max_serial < serial st').
Proof.
  induction fuel as [| fuel IH]; intros st Hbs Hfuel.
  - exists st, None. cbn.
    destruct (Z.leb_spec (serial st) max_serial) as [? | Hend]; [lia |].
    split; [done |]. split; [exists []; by rewrite app_nil_r |].
    intros _. by right.
  - cbn [scan_loop].
    destruct (Z.leb_spec (serial st) max_serial) as [Hin | Hend].
    + destruct (scan_step net rng batch_size province year st)
        as [st1 o] eqn:Hstep.
      destruct (scan_step_spec _ _ _ Hstep) as ((rows & Hfile & Hrows) & _ & Ho).
      destruct o as [| | e].
      * destruct Ho as [Hserial _].
        destruct (IH st1 Hbs ltac:(lia))
          as (st' & err & Hloop & (rows' & Hfile' & Hrows') & Hexit).
        exists st', err. split; [done |]. split; [| done].
        exists (rows ++ rows'). rewrite Hfile', Hfile, app_assoc.
        split; [done | by apply Forall_app].
      * exists st1, None. split; [done |]. split; [by exists rows |].
        intros _. left. apply Ho.
      * exists st1, (Some e). split; [done |]. split; [by exists rows |].
        discriminate.
    + exists st, None. split; [done |].
      split; [exists []; by rewrite app_nil_r |]. intros _. by right.
Qed.

End ScanProperties.

Lemma ceil_div_one (x b : Z) : 0 < x <= b → ceil_div x b = 1.
Proof.
  intros Hx. unfold ceil_div. symmetry.
  apply (Z.div_unique _ _ 1 (x - 1)); lia.
Qed.

Lemma ceil_div_step (x b : Z) : 0 < b → ceil_div (x - b) b = ceil_div x b - 1.
Proof.
  intros Hb. unfold ceil_div.
  replace (x - b + b - 1) with (x + b - 1 + -1 * b) by lia.
  rewrite Z.div_add by lia. lia.
Qed.

Lemma concat_fmap_nil {A B} (f : A → list B) (l : list A) :
  (∀ x, f x = []) → concat (f <$> l) = [].
Proof.
  intros Hf. induction l as [| x l IH]; [done |].
  cbn. by rewrite Hf, IH.
Qed.

Section EmptyScan.

Context (net : string → nat → response) (rng : string → nat → N).
Context (batch_size : Z) (province : string) (year : Z).
Hypothesis Hempty : ∀ url, (fetch net rng url 3).2 = inr NO_DATA.
Hypothesis Hbs : 0 < batch_size.

Lemma empty_batch start_serial :
  returned (fetch_batch net rng province start_serial batch_size year)
  = inr [].
Proof.
  destruct (fetch_batch_spec_ok net rng province start_serial batch_size year)
    as (_ & Hret & _); [| lia |].
  - rewrite batch_results_fmap. apply Forall_fmap, Forall_true.
    intros sbd. unfold compose. cbn [snd]. rewrite Hempty.
    split; [by eexists | discriminate].
  - rewrite Hret, batch_results_fmap, <- list_fmap_compose.
    rewrite concat_fmap_nil; [done |].
    intros sbd. unfold compose, confirmed_records. cbn [fst snd].
    by rewrite Hempty.
Qed.

Lemma empty_scan_loop : ∀ fuel st,
  0 <= consecutive_misses st < MAX_CONSECUTIVE_MISSES →
  serial st <= 1 + consecutive_misses st →
  ceil_div (MAX_CONSECUTIVE_MISSES - consecutive_misses st) batch_size
    <= Z.of_nat fuel →
  ∃ st',
    scan_loop net rng fuel batch_size province year st = Some (st', None)
    ∧ Z.of_nat (batches (trace st'))
      = Z.of_nat (batches (trace st))
        + ceil_div (MAX_CONSECUTIVE_MISSES - consecutive_misses st) batch_size
    ∧ file st' = file st
    ∧ MAX_CONSECUTIVE_MISSES <= consecutive_misses st'.
Proof.
  unfold MAX_CONSECUTIVE_MISSES.
  induction fuel as [| fuel IH]; intros st Hm Hserial Hfuel.
  - destruct (decide (1000 - consecutive_misses st <= batch_size)).
    + rewrite ceil_div_one in Hfuel by lia. lia.
    + pose proof (ceil_div_step (1000 - consecutive_misses st) batch_size Hbs).
      assert (0 <= ceil_div (1000 - consecutive_misses st - batch_size)
                     batch_size)
        by (apply Z.div_pos; lia).
      lia.
  - cbn [scan_loop].
    destruct (Z.leb_spec (serial st) max_serial) as [_ | Hend];
      [| unfold max_serial in Hend; lia].
    unfold scan_step. rewrite empty_batch. unfold MAX_CONSECUTIVE_MISSES.
    destruct (Z.leb_spec 1000 (consecutive_misses st + batch_size))
      as [Hstop | Hgo].
    + eexists. split; [reflexivity |]. cbn.
      rewrite batches_snoc_wait, ceil_div_one by lia.
      split; [lia | done].
    + pose proof (ceil_div_step (1000 - consecutive_misses st) batch_size Hbs)
        as Hstep.
      edestruct (IH {| file := file st; total := total st;
                       consecutive_misses := consecutive_misses st + batch_size;
                       serial := serial st + batch_size;
                       trace := trace st ++
                         [RunBatch (serial st)
                            (fetch_batch net rng province (serial st)
                               batch_size year);
                          Wait DELAY_BETWEEN_REQUESTS] |})
        as (st' & Hloop & Hbatches & Hfile & Hmiss); cbn; try lia.
      { replace (1000 - (consecutive_misses st + batch_size))
          with (1000 - consecutive_misses st - batch_size) by lia. lia. }
      exists st'. split; [exact Hloop |].
      cbn in Hbatches, Hfile. rewrite batches_snoc_wait in Hbatches.
      replace (1000 - (consecutive_misses st + batch_size))
        with (1000 - consecutive_misses st - batch_size) in Hbatches by lia.
      split; [lia | done].
Qed.

End EmptyScan.

(** C4. With a fetcher that always returns the no-data outcome, a scan
    ends after exactly [ceil(1000 / batch_size)] batches, normally, and
    leaves the table as it was (the header alone for a new table).  With
    any fetcher a scan ends, and when it ends normally the miss counter has
    reached 1000 or the cursor has passed 150000; it goes on to another
    batch only below both bounds. *)
Theorem scan_stops (batch_size : Z) (province : string) (year : Z)
    (existing : option (list row)) :
  0 < batch_size →
  (∀ net rng (fuel : nat),
     (∀ url, (fetch net rng url 3).2 = inr NO_DATA) →
     (Z.to_nat (ceil_div 1000 batch_size) <= fuel)%nat →
     ∃ st,
       worker_scan_province_with net rng batch_size fuel province year existing
       = Some (st, None)
       ∧ batches (trace st) = Z.to_nat (ceil_div 1000 batch_size)
       ∧ file st = default [header] existing)
  ∧ (∀ net rng (fuel : nat),
       (Z.to_nat max_serial <= fuel)%nat →
       ∃ st err,
         worker_scan_province_with net rng batch_size fuel province year
           existing
         = Some (st, err)
         ∧ (err = None →
            1000 <= consecutive_misses st ∨ 150000 < serial st))
  ∧ (∀ net rng st st',
       scan_step net rng batch_size province year st = (st', Next) →
       consecutive_misses st' < 1000)
  ∧ (∀ net rng fuel st,
       150000 < serial st →
       scan_loop net rng fuel batch_size province year st = Some (st, None)).
Proof.
  intros Hbs. repeat split.
  - intros net rng fuel Hempty Hfuel. unfold worker_scan_province_with.
    assert (0 <= ceil_div 1000 batch_size) by (apply Z.div_pos; lia).
    destruct (empty_scan_loop net rng batch_size province year Hempty Hbs fuel
                {| file := default [header] existing; total := 0;
                   consecutive_misses := 0; serial := 1; trace := [] |})
      as (st & Hloop & Hbatches & Hfile & _);
      cbn; unfold MAX_CONSECUTIVE_MISSES; rewrite ?Z.sub_0_r; try lia.
    exists st. split; [exact Hloop |]. cbn in Hbatches, Hfile.
    unfold MAX_CONSECUTIVE_MISSES in Hbatches. rewrite Z.sub_0_r in Hbatches.
    split; [lia | done].
  - intros net rng fuel Hfuel. unfold worker_scan_province_with.
    destruct (scan_loop_spec net rng batch_size province year fuel
                {| file := default [header] existing; total := 0;
                   consecutive_misses := 0; serial := 1; trace := [] |} Hbs)
      as (st & err & Hloop & _ & Hexit).
    { cbn [serial]. unfold max_serial in *. lia. }
    by exists st, err.
  - intros net rng st st' Hstep.
    by destruct (scan_step_spec _ _ _ _ _ _ _ _ Hstep) as (_ & _ & _ & Hm).
  - intros net rng fuel st Hend.
    destruct fuel; cbn [scan_loop];
      by destruct (Z.leb_spec (serial st) max_serial) as [Hle | _];
        [unfold max_serial in Hle; lia |].
Qed.

Lemma scan_stops_witness :
  ∃ st,
    worker_scan_province no_data (rng_const 0) 5 "01" 2025 None
    = Some (st, None)
    ∧ batches (trace st) = 5%nat
    ∧ file st = [header].
Proof.
  destruct (scan_stops BATCH_SIZE "01" 2025 None eq_refl) as [Hempty _].
  apply (Hempty no_data (rng_const 0) 5%nat);
    [intros url; reflexivity | vm_compute; lia].
Defined.

Section NoRaise.

Context (net : string → nat → response) (rng : string → nat → N).
Context (batch_size : Z) (province : string) (year : Z).
Hypothesis Hnet : keeps_contract net.
Hypothesis Hbs : 0 < batch_size.



End NoRaise.



(** The retried failures never leave [fetch]. *)
Lemma fetch_attempt_raise net rng url attempt e :
  fetch_attempt net rng url attempt = Raise e →
  e ≠ TimeoutError ∧ e ≠ ClientError.
Proof.
  assert (Hexcept : ∀ r e',
            fetch_except r e' = Raise e → e ≠ TimeoutError ∧ e ≠ ClientError).
  { intros r e'. destruct e'; cbn; intros [= <-]; by split. }
  unfold fetch_attempt. destruct (net url attempt) as [status body | e'].
  - destruct (status =? 200).
    + destruct body as [e' | json_data]; [apply Hexcept |].
      destruct (has_results json_data) as [e' | [|]];
        [apply Hexcept | discriminate | discriminate].
    + destruct (status =? 429); discriminate.
  - apply Hexcept.
Qed.




(** Seven failing fetches out of eight leave one Record and a cooldown. *)
Example flaky_batch :
  let run := fetch_batch flaky (rng_const 0) "01" 1 8 2025 in
  returned run = inr [record_of_row "01" "01000007" {[ "VAN" := JNum 8 ]}]
  ∧ cooldown run = [Sleep 60]
  ∧ non_success_count (batch_results flaky (rng_const 0) "01" 1 8 2025).*2 = 7.
Proof. vm_compute. done. Qed.


(** ** The merge step (C9) *)

Section MergeProperties.

Context {K : Type} `{Countable K} {R : Type} (SBD : R → K).

Lemma drop_duplicates_from_spec : ∀ (df : list R) (seen : gset K),
  NoDup (SBD <$> drop_duplicates_from SBD seen df)
  ∧ (∀ k, k ∈ SBD <$> drop_duplicates_from SBD seen df
          ↔ k ∈ SBD <$> df ∧ k ∉ seen)
  ∧ drop_duplicates_from SBD seen df ⊆ df.
Proof.
  induction df as [| r df IH]; intros seen.
  - cbn. split; [constructor |]. split; [| done].
    intros k. rewrite elem_of_nil. tauto.
  - cbn [drop_duplicates_from]. case_decide as Hseen.
    + destruct (IH seen) as (Hnodup & Hkeys & Hsub).
      split; [done |]. split.
      * intros k. rewrite Hkeys, fmap_cons, elem_of_cons.
        split; [tauto |]. intros [[-> | Hin] Hk]; [done | tauto].
      * set_solver.
    + destruct (IH ({[SBD r]} ∪ seen)) as (Hnodup & Hkeys & Hsub).
      rewrite !fmap_cons. split.
      * apply NoDup_cons. split; [| done].
        rewrite Hkeys. set_solver.
      * split.
        -- intros k. rewrite !elem_of_cons, Hkeys.
           destruct (decide (k = SBD r)) as [-> | Hne]; set_solver.
        -- set_solver.
Qed.

(** C9. Whatever tables the merge step is given, and however their
    identifiers overlap, its output holds every identifier of the input
    exactly once, each with a row of the input; without any table the
    step fails and writes nothing. *)
Theorem merged_df_no_duplicates (df_list : list (list R)) :
  match merged_df SBD df_list with
  | inr out =>
      NoDup (SBD <$> out)
      ∧ (∀ k, k ∈ SBD <$> out ↔ k ∈ SBD <$> concat df_list)
      ∧ out ⊆ concat df_list
  | inl e => df_list = [] ∧ e = ValueError
  end.
Proof.
  unfold merged_df, pd_concat. destruct df_list as [| df df_list]; [done |].
  cbn [mbind exn_bind mret exn_ret]. unfold drop_duplicates.
  destruct (drop_duplicates_from_spec (concat (df :: df_list)) ∅)
    as (Hnodup & Hkeys & Hsub).
  split; [done |]. split; [| done].
  intros k. rewrite Hkeys. set_solver.
Qed.

End MergeProperties.

(** The survivor of a duplicate group is its first row. *)
Example merged_df_keeps_first :
  merged_df fst [[("01000001", 7); ("01000002", 5)];
                 [("01000001", 9); ("01000003", 4)]]
  = inr [("01000001", 7); ("01000002", 5); ("01000003", 4)].
Proof. vm_compute. reflexivity. Qed.

(** * Further properties of the code *)

(** ** Identifiers and request targets *)

Lemma length_dec_digits_rev_lower fuel : ∀ n k,
  0 <= n < 2 ^ Z.of_nat fuel →
  10 ^ Z.of_nat k <= n →
  (S k <= length (dec_digits_rev fuel n))%nat.
Proof.
  induction fuel as [| fuel IH]; intros n k Hn Hk.
  - cbn in Hn. assert (0 < 10 ^ Z.of_nat k) by (apply Z.pow_pos_nonneg; lia).
    lia.
  - cbn [dec_digits_rev]. destruct (Z.ltb_spec n 10) as [Hlt | Hge].
    + destruct k as [| k]; [cbn; lia |].
      rewrite Nat2Z.inj_succ, Z.pow_succ_r in Hk by lia.
      assert (0 < 10 ^ Z.of_nat k) by (apply Z.pow_pos_nonneg; lia). lia.
    + cbn [length]. destruct k as [| k]; [lia |].
      apply le_n_S, IH.
      * split; [apply Z.div_pos; lia |].
        apply Z.div_lt_upper_bound; [lia |].
        rewrite Nat2Z.inj_succ, Z.pow_succ_r in Hn by lia. lia.
      * rewrite Nat2Z.inj_succ, Z.pow_succ_r in Hk by lia.
        apply Z.div_le_lower_bound; lia.
Qed.

Lemma length_dec_digits_lower n k :
  10 ^ Z.of_nat k <= n → (S k <= length (dec_digits n))%nat.
Proof.
  intros Hk. unfold dec_digits. rewrite length_reverse.
  assert (0 < 10 ^ Z.of_nat k) by (apply Z.pow_pos_nonneg; lia).
  apply length_dec_digits_rev_lower; [apply log2_fuel; lia | done].
Qed.

Lemma length_dec_digits_pos n : (1 <= length (dec_digits n))%nat.
Proof.
  unfold dec_digits. rewrite length_reverse. cbn [dec_digits_rev].
  destruct (n <? 10); cbn; lia.
Qed.

Lemma int_of_format_0d (width : nat) n :
  0 <= n →
  int_of_digits 0 (String.list_ascii_of_string (format_0d width n)) = Some n.
Proof.
  intros Hn. rewrite format_0d_nonneg by done.
  rewrite String.list_ascii_of_string_of_list_ascii.
  by rewrite int_of_digits_zeros, int_of_dec_digits.
Qed.

Lemma append_inv_head s : ∀ a b, s +:+ a = s +:+ b → a = b.
Proof.
  induction s as [| c s IH]; intros a b Heq; [done |].
  rewrite !append_cons in Heq. injection Heq as Heq. by apply IH.
Qed.

Lemma list_ascii_of_string_app a b :
  String.list_ascii_of_string (a +:+ b)
  = String.list_ascii_of_string a ++ String.list_ascii_of_string b.
Proof.
  induction a as [| c a IH]; [done |].
  rewrite append_cons. cbn. by rewrite IH.
Qed.

Lemma append_inv_tail s a b : a +:+ s = b +:+ s → a = b.
Proof.
  intros Heq.
  apply (f_equal String.list_ascii_of_string) in Heq.
  rewrite !list_ascii_of_string_app in Heq. apply app_inv_tail in Heq.
  apply (f_equal String.string_of_list_ascii) in Heq.
  by rewrite !String.string_of_list_ascii_of_string in Heq.
Qed.

Lemma build_sbd_inj province s1 s2 :
  0 <= s1 → 0 <= s2 →
  build_sbd province s1 = build_sbd province s2 → s1 = s2.
Proof.
  intros H1 H2 Heq. unfold build_sbd in Heq. apply append_inv_head in Heq.
  pose proof (int_of_format_0d SERIAL_DIGITS s1 H1) as Hd1.
  rewrite Heq, int_of_format_0d in Hd1 by done. congruence.
Qed.

Lemma build_request_url_inj_sbd sbd1 sbd2 year :
  build_request_url sbd1 year = build_request_url sbd2 year → sbd1 = sbd2.
Proof.
  unfold build_request_url. intros Heq.
  apply append_inv_head, append_inv_head in Heq.
  by apply append_inv_tail in Heq.
Qed.

(** X1. Zero padding never truncates: for a serial of any size the
    characters after the region code are at least six, read back as the
    serial, and are exactly six only for serials below 10^6. *)
Theorem build_sbd_never_truncates (province : string) (serial : Z) :
  0 <= serial →
  ∃ tail : string,
    build_sbd province serial = province +:+ tail
    ∧ int_of_digits 0 (String.list_ascii_of_string tail) = Some serial
    ∧ (6 <= String.length tail)%nat
    ∧ (String.length tail = 6%nat ↔ serial < 10 ^ 6).
Proof.
  intros Hserial. exists (format_0d SERIAL_DIGITS serial).
  split; [done |]. split; [by apply int_of_format_0d |].
  rewrite format_0d_nonneg by done.
  rewrite length_string_of_list, length_app, length_replicate.
  unfold SERIAL_DIGITS. split; [lia |].
  destruct (Z.ltb_spec serial (10 ^ 6)) as [Hlt | Hge].
  - pose proof (length_dec_digits serial 5 ltac:(lia)). split; [done | lia].
  - pose proof (length_dec_digits_lower serial 6 Hge). lia.
Qed.

Lemma build_sbd_never_truncates_witness :
  ∃ tail : string,
    build_sbd "64" 1234567 = "64" +:+ tail
    ∧ int_of_digits 0 (String.list_ascii_of_string tail) = Some 1234567
    ∧ (6 <= String.length tail)%nat
    ∧ (String.length tail = 6%nat ↔ 1234567 < 10 ^ 6).
Proof. apply (build_sbd_never_truncates "64" 1234567). lia. Defined.

Lemma NoDup_py_range lo hi : NoDup (py_range lo hi).
Proof.
  unfold py_range. apply NoDup_fmap_2; [| apply NoDup_seq].
  intros i j Hij. lia.
Qed.

Lemma elem_of_py_range x lo hi : x ∈ py_range lo hi ↔ lo <= x < hi.
Proof.
  unfold py_range. rewrite list_elem_of_fmap. split.
  - intros (i & -> & Hi). apply elem_of_seq in Hi. lia.
  - intros Hx. exists (Z.to_nat (x - lo)). split; [lia |].
    apply elem_of_seq. lia.
Qed.

(** X2. A batch dispatches exactly [batch_size] identifiers, pairwise
    distinct, and requests pairwise distinct targets. *)
Theorem batch_targets_distinct (province : string)
    (start_serial batch_size year : Z) :
  0 <= start_serial →
  let sbds := batch_sbds province start_serial batch_size in
  length sbds = Z.to_nat batch_size
  ∧ NoDup sbds
  ∧ NoDup ((λ sbd, build_request_url sbd year) <$> sbds).
Proof.
  intros Hstart sbds. subst sbds. unfold batch_sbds.
  assert (Hsbds : NoDup (build_sbd province
                           <$> py_range start_serial (start_serial + batch_size))).
  { apply NoDup_fmap_2_strong; [| apply NoDup_py_range].
    intros s1 s2 H1%elem_of_py_range H2%elem_of_py_range.
    apply build_sbd_inj; lia. }
  split; [| split; [done |]].
  - unfold py_range. rewrite !length_fmap, length_seq. lia.
  - apply NoDup_fmap_2; [| done].
    intros sbd1 sbd2. apply build_request_url_inj_sbd.
Qed.

Lemma batch_targets_distinct_witness :
  let sbds := batch_sbds "01" 1 200 in
  length sbds = Z.to_nat 200
  ∧ NoDup sbds
  ∧ NoDup ((λ sbd, build_request_url sbd 2025) <$> sbds).
Proof. apply (batch_targets_distinct "01" 1 200 2025). lia. Defined.

(** ** The fetcher *)

Section FetchMore.

Context (net : string → nat → response) (rng : string → nat → N).

Lemma fetch_attempt_timed_out url k :
  timed_out (net url k) →
  fetch_attempt net rng url k
  = Continue (1 + uniform 0 (2 # 10) (random_random (rng url k))).
Proof. unfold fetch_attempt. by intros [-> | ->]. Qed.

Lemma fetch_attempt_errored url k :
  errored (net url k) →
  fetch_attempt net rng url k
  = Continue ((5 # 10) + uniform 0 (2 # 10) (random_random (rng url k))).
Proof.
  unfold fetch_attempt, errored.
  destruct (net url k) as [status body | e]; [| by intros ->].
  intros [[H200 H429] | [-> ->]]; [| done].
  destruct (Z.eqb_spec status 200); [done |].
  by destruct (Z.eqb_spec status 429).
Qed.

Lemma fetch_attempt_retried url k :
  retried (net url k) → ∃ w, fetch_attempt net rng url k = Continue w.
Proof.
  intros [Ht | [He | [body Hb]]].
  - eexists. by apply fetch_attempt_timed_out.
  - eexists. by apply fetch_attempt_errored.
  - eexists. by eapply fetch_attempt_429.
Qed.

Lemma fetch_from_gives_up url : ∀ n attempt,
  (∀ k, (attempt <= k < attempt + n)%nat → retried (net url k)) →
  (fetch_from net rng url attempt n).2 = inr NO_DATA
  ∧ requests (fetch_from net rng url attempt n).1 = n.
Proof.
  induction n as [| n IH]; intros attempt Hnet; [done |].
  cbn [fetch_from].
  destruct (fetch_attempt_retried url attempt (Hnet attempt ltac:(lia)))
    as [w ->].
  destruct (IH (S attempt)) as [Hres Hreq]; [intros k Hk; apply Hnet; lia |].
  destruct (fetch_from net rng url (S attempt) n) as [evs res].
  cbn in *. by rewrite Hreq.
Qed.

(** X3. When every attempt meets a retried answer (429, another error
    status, a timeout, a client error), [fetch] gives up with the no-data
    outcome after exactly [retries] requests; with [retries = 0] it asks
    nothing at all. *)
Theorem fetch_gives_up (url : string) (retries : nat) :
  (∀ k, (k < retries)%nat → retried (net url k)) →
  (fetch net rng url retries).2 = inr NO_DATA
  ∧ requests (fetch net rng url retries).1 = retries.
Proof.
  intros Hnet. apply fetch_from_gives_up. intros k Hk. apply Hnet. lia.
Qed.

Lemma fetch_from_recovers url body : ∀ k attempt n,
  (∀ j, (attempt <= j < attempt + k)%nat → retried (net url j)) →
  net url (attempt + k)%nat = Response 200 (inr body) →
  has_results body = inr true →
  (k < n)%nat →
  (fetch_from net rng url attempt n).2 = inr body
  ∧ requests (fetch_from net rng url attempt n).1 = S k.
Proof.
  induction k as [| k IH]; intros attempt n Hretry Hnet Hres Hn;
    (destruct n as [| n]; [lia |]); cbn [fetch_from].
  - rewrite Nat.add_0_r in Hnet. unfold fetch_attempt.
    by rewrite Hnet, Z.eqb_refl, Hres.
  - destruct (fetch_attempt_retried url attempt (Hretry attempt ltac:(lia)))
      as [w ->].
    destruct (IH (S attempt) n) as [Hbody Hreq]; try done; try lia.
    { intros j Hj. apply Hretry. lia. }
    { by replace (S attempt + k)%nat with (attempt + S k)%nat by lia. }
    destruct (fetch_from net rng url (S attempt) n) as [evs res].
    cbn in *. by rewrite Hreq.
Qed.

(** X4. Retrying pays off: when the first [k] attempts meet retried
    answers and attempt [k + 1], still within [retries], meets a positive
    payload, [fetch] returns that payload after exactly [k + 1] requests. *)
Theorem fetch_recovers (url : string) (retries k : nat) body :
  (∀ j, (j < k)%nat → retried (net url j)) →
  net url k = Response 200 (inr body) →
  has_results body = inr true →
  (k < retries)%nat →
  (fetch net rng url retries).2 = inr body
  ∧ requests (fetch net rng url retries).1 = S k.
Proof.
  intros Hretry Hnet Hres Hk.
  apply (fetch_from_recovers url body k 0 retries); try done.
  intros j Hj. apply Hretry. lia.
Qed.

Lemma fetch_from_outcome url : ∀ n attempt,
  match (fetch_from net rng url attempt n).2 with
  | inr d =>
      d = NO_DATA
      ∨ ∃ k, (attempt <= k < attempt + n)%nat
             ∧ net url k = Response 200 (inr d)
             ∧ has_results d = inr true
  | inl e =>
      e ≠ TimeoutError ∧ e ≠ ClientError
      ∧ ∃ k, (attempt <= k < attempt + n)%nat
             ∧ (net url k = Raises e
                ∨ net url k = Response 200 (inl e)
                ∨ ∃ d, net url k = Response 200 (inr d)
                       ∧ has_results d = inl e)
  end.
Proof.
  induction n as [| n IH]; intros attempt; [by left |].
  cbn [fetch_from].
  destruct (fetch_attempt net rng url attempt) as [r | e | w] eqn:Hatt.
  - cbn. unfold fetch_attempt in Hatt.
    destruct (net url attempt) as [status body | e] eqn:Hnet;
      [| by destruct e].
    destruct (Z.eqb_spec status 200) as [-> | ?];
      [| by destruct (status =? 429)].
    destruct body as [e | d]; [by destruct e |].
    destruct (has_results d) as [e | [|]] eqn:Hres; [by destruct e | |].
    + injection Hatt as <-. right. exists attempt. split; [lia | done].
    + injection Hatt as <-. by left.
  - cbn. pose proof (fetch_attempt_raise _ _ _ _ _ Hatt) as [Ht Hc].
    split; [done |]. split; [done |]. exists attempt. split; [lia |].
    unfold fetch_attempt in Hatt.
    destruct (net url attempt) as [status body | e'] eqn:Hnet.
    + destruct (Z.eqb_spec status 200) as [-> | ?];
        [| by destruct (status =? 429)].
      destruct body as [e' | d].
      * right. left. destruct e'; cbn in Hatt; congruence.
      * right. right. exists d. split; [done |].
        destruct (has_results d) as [e' | [|]]; try discriminate Hatt.
        destruct e'; cbn in Hatt; congruence.
    + left. destruct e'; cbn in Hatt; congruence.
  - specialize (IH (S attempt)).
    destruct (fetch_from net rng url (S attempt) n) as [evs [e | d]]; cbn in *.
    + destruct IH as (Ht & Hc & k & Hk & Hcause).
      split; [done |]. split; [done |]. exists k. split; [lia | done].
    + destruct IH as [-> | (k & Hk & Hcause)]; [by left |].
      right. exists k. split; [lia | done].
Qed.

(** X5. [fetch] makes nothing up: a dict it returns is the no-data dict or,
    unchanged, a positive payload one of its attempts received; an
    exception it raises was met by one of its attempts and is neither a
    timeout nor a client error. *)
Theorem fetch_outcome_from_server (url : string) (retries : nat) :
  match (fetch net rng url retries).2 with
  | inr d =>
      d = NO_DATA
      ∨ ∃ k, (k < retries)%nat
             ∧ net url k = Response 200 (inr d)
             ∧ has_results d = inr true
  | inl e =>
      e ≠ TimeoutError ∧ e ≠ ClientError
      ∧ ∃ k, (k < retries)%nat
             ∧ (net url k = Raises e
                ∨ net url k = Response 200 (inl e)
                ∨ ∃ d, net url k = Response 200 (inr d)
                       ∧ has_results d = inl e)
  end.
Proof.
  pose proof (fetch_from_outcome url retries 0) as H. unfold fetch.
  destruct (fetch_from net rng url 0 retries).2 as [e | d].
  - destruct H as (Ht & Hc & k & Hk & Hcause). repeat split; try done.
    exists k. split; [lia | done].
  - destruct H as [-> | (k & Hk & Hcause)]; [by left |].
    right. exists k. split; [lia | done].
Qed.

End FetchMore.

Lemma fetch_gives_up_witness :
  (fetch flaky (rng_const 0) (build_request_url "01000009" 2025) 3).2
  = inr NO_DATA
  ∧ requests (fetch flaky (rng_const 0) (build_request_url "01000009" 2025) 3).1
    = 3%nat.
Proof.
  apply (fetch_gives_up flaky (rng_const 0)
           (build_request_url "01000009" 2025) 3).
  intros k _. right. left. vm_compute. left. split; discriminate.
Defined.

Lemma fetch_recovers_witness :
  (fetch third_time_lucky (rng_const 0) "u" 3).2
  = inr (JObj {[ "success" := JBool true; "total" := JNum 1;
                 "data" := JArr [JObj {[ "TOAN" := JNum 9 ]}] ]})
  ∧ requests (fetch third_time_lucky (rng_const 0) "u" 3).1 = 3%nat.
Proof.
  apply (fetch_recovers third_time_lucky (rng_const 0) "u" 3 2);
    [| reflexivity | reflexivity | lia].
  intros [| [| j]] Hj; [| | lia].
  - left. by left.
  - right. left. left. split; discriminate.
Defined.

Section FetchDelays.

Context (net : string → nat → response) (rng : string → nat → N).

Lemma sleep_prefix_fetch_from url n attempt :
  sleep_prefix (fetch_from net rng url attempt n).1 = 0%Q.
Proof.
  destruct n as [| n]; [done |]. cbn [fetch_from].
  destruct (fetch_attempt net rng url attempt); [done | done |].
  by destruct (fetch_from net rng url (S attempt) n).
Qed.

Lemma fetch_from_delays url : ∀ n attempt i,
  (∀ k, (attempt <= k < attempt + n)%nat → retried (net url k)) →
  (i < n)%nat →
  ∃ w, fetch_attempt net rng url (attempt + i) = Continue w
       ∧ delays_after (fetch_from net rng url attempt n).1 !! i
         = Some (w + 0)%Q.
Proof.
  induction n as [| n IH]; intros attempt i Hnet Hi; [lia |].
  cbn [fetch_from].
  destruct (fetch_attempt_retried net rng url attempt (Hnet attempt ltac:(lia)))
    as [w Hw].
  rewrite Hw.
  pose proof (sleep_prefix_fetch_from url n (S attempt)) as Hprefix.
  destruct i as [| i].
  - exists w. rewrite Nat.add_0_r. split; [done |].
    destruct (fetch_from net rng url (S attempt) n) as [evs res].
    cbn in *. by rewrite Hprefix.
  - destruct (IH (S attempt) i) as (w' & Hw' & Hd); [| lia |].
    { intros k Hk. apply Hnet. lia. }
    exists w'. replace (attempt + S i)%nat with (S attempt + i)%nat by lia.
    split; [done |].
    by destruct (fetch_from net rng url (S attempt) n) as [evs res].
Qed.

(** X6. The backoff policy, attempt by attempt: when every attempt is
    retried, the sleep after attempt [k] (counted from 0) is 1 s plus a
    jitter in [0, 0.2) after a timeout, 0.5 s plus such a jitter after an
    error status or a client error that is not a timeout, and between
    10 (k + 1) s and 10 (k + 1) + 2 s, both included, after a 429. *)
Theorem fetch_backoff_policy (url : string) (retries k : nat) :
  (∀ j, (j < retries)%nat → retried (net url j)) →
  (k < retries)%nat →
  ∃ d : Q,
    delays_after (fetch net rng url retries).1 !! k = Some d
    ∧ (timed_out (net url k) → (1 <= d)%Q ∧ (d < 12 # 10)%Q)
    ∧ (errored (net url k) → (5 # 10 <= d)%Q ∧ (d < 7 # 10)%Q)
    ∧ (∀ body, net url k = Response 429 body →
         (inject_Z (10 * (Z.of_nat k + 1)) <= d)%Q
         ∧ (d <= inject_Z (10 * (Z.of_nat k + 1)) + 2)%Q).
Proof.
  intros Hnet Hk.
  destruct (fetch_from_delays url retries 0 k) as (w & Hw & Hd); [| done |].
  { intros j Hj. apply Hnet. lia. }
  cbn [Nat.add] in Hw. exists (w + 0)%Q. split; [exact Hd |].
  pose proof (uniform_range (2 # 10) (rng url k) eq_refl) as [Hu0 Hu1].
  pose proof (uniform_range 2 (rng url k) eq_refl) as [Hv0 Hv1].
  split; [| split].
  - intros Ht. rewrite (fetch_attempt_timed_out net rng url k Ht) in Hw.
    injection Hw as <-. split; lra.
  - intros He. rewrite (fetch_attempt_errored net rng url k He) in Hw.
    injection Hw as <-. split; lra.
  - intros body Hb. rewrite (fetch_attempt_429 net rng url k body Hb) in Hw.
    injection Hw as <-.
    replace ((Z.of_nat k + 1) * 10) with (10 * (Z.of_nat k + 1)) by lia.
    split; lra.
Qed.

Lemma fetch_attempt_wait url k w :
  fetch_attempt net rng url k = Continue w →
  (w < inject_Z ((Z.of_nat k + 1) * 10) + 2)%Q.
Proof.
  pose proof (uniform_range (2 # 10) (rng url k) eq_refl) as [Hu0 Hu1].
  pose proof (uniform_range 2 (rng url k) eq_refl) as [Hv0 Hv1].
  assert (Hk : (10 <= inject_Z ((Z.of_nat k + 1) * 10))%Q).
  { change 10%Q with (inject_Z 10). rewrite <- Zle_Qle. lia. }
  assert (Hexcept : ∀ e,
            fetch_except (random_random (rng url k)) e = Continue w →
            (w < inject_Z ((Z.of_nat k + 1) * 10) + 2)%Q).
  { intros e. destruct e; cbn; intros [= <-]; lra. }
  unfold fetch_attempt. destruct (net url k) as [status body | e];
    [| apply Hexcept].
  destruct (status =? 200).
  - destruct body as [e | d]; [apply Hexcept |].
    destruct (has_results d) as [e | [|]]; [apply Hexcept | done | done].
  - destruct (status =? 429); intros [= <-]; lra.
Qed.

Lemma fetch_from_bounded url : ∀ n attempt,
  (requests (fetch_from net rng url attempt n).1 <= n)%nat
  ∧ (total_sleep (fetch_from net rng url attempt n).1
     <= inject_Z (5 * Z.of_nat n * (2 * Z.of_nat attempt + Z.of_nat n + 1)
                  + 2 * Z.of_nat n))%Q.
Proof.
  induction n as [| n IH]; intros attempt; [by split |].
  cbn [fetch_from].
  assert (Hpos : (0 <= inject_Z
                         (5 * Z.of_nat (S n)
                          * (2 * Z.of_nat attempt + Z.of_nat (S n) + 1)
                          + 2 * Z.of_nat (S n)))%Q).
  { change 0%Q with (inject_Z 0). rewrite <- Zle_Qle. nia. }
  destruct (fetch_attempt net rng url attempt) as [r | e | w] eqn:Hatt.
  - cbn. split; [lia | done].
  - cbn. split; [lia | done].
  - apply fetch_attempt_wait in Hatt. destruct (IH (S attempt)) as [Hreq Hsleep].
    destruct (fetch_from net rng url (S attempt) n) as [evs res].
    cbn in *. split; [lia |].
    eapply Qle_trans.
    { apply Qplus_le_compat; [apply Qlt_le_weak, Hatt | apply Hsleep]. }
    change 2%Q with (inject_Z 2). rewrite <- !inject_Z_plus, <- Zle_Qle. nia.
Qed.

(** X7. Whatever the server does, a fetch with three attempts makes at
    most 3 requests and sleeps no more than 66 seconds in all; with
    [retries] attempts, at most [retries] requests and
    [5 retries (retries + 1) + 2 retries] seconds. *)
Theorem fetch_bounded (url : string) (retries : nat) :
  (requests (fetch net rng url retries).1 <= retries)%nat
  ∧ (total_sleep (fetch net rng url retries).1
     <= inject_Z (5 * Z.of_nat retries * (Z.of_nat retries + 1)
                  + 2 * Z.of_nat retries))%Q
  ∧ (total_sleep (fetch net rng url 3).1 <= 66)%Q.
Proof.
  pose proof (fetch_from_bounded url retries 0) as [Hreq Hsleep].
  split; [done |]. split; [exact Hsleep |].
  apply (fetch_from_bounded url 3 0).
Qed.

End FetchDelays.

Lemma fetch_backoff_policy_witness :
  ∃ d : Q,
    delays_after (fetch flaky (rng_const 0)
                    (build_request_url "01000001" 2025) 3).1 !! 2%nat
    = Some d
    ∧ (1 <= d)%Q ∧ (d < 12 # 10)%Q.
Proof.
  destruct (fetch_backoff_policy flaky (rng_const 0)
              (build_request_url "01000001" 2025) 3 2)
    as (d & Hd & Ht & _); [| lia |].
  - intros j _. left. by left.
  - exists d. split; [exact Hd |]. apply Ht. by left.
Defined.

(** ** The batch executor *)

Lemma batch_sbds_nil province start_serial batch_size :
  batch_size <= 0 → batch_sbds province start_serial batch_size = [].
Proof.
  intros Hbs. unfold batch_sbds, py_range.
  by replace (Z.to_nat (start_serial + batch_size - start_serial))
    with 0%nat by lia.
Qed.

(** X8. A batch of size zero or less dispatches nothing and takes no
    cooldown; of size zero it raises [ZeroDivisionError] when it computes
    the miss ratio, of negative size it returns the empty list. *)
Theorem fetch_batch_degenerate net rng (province : string)
    (start_serial batch_size year : Z) :
  batch_size <= 0 →
  let run := fetch_batch net rng province start_serial batch_size year in
  tasks run = []
  ∧ cooldown run = []
  ∧ returned run
    = if decide (batch_size = 0) then inl ZeroDivisionError else inr [].
Proof.
  intros Hbs run. subst run. unfold fetch_batch.
  rewrite batch_sbds_nil by done. cbn. unfold true_div.
  destruct (Z.eqb_spec batch_size 0) as [-> | Hne]; [done |].
  rewrite decide_False by done. cbn.
  destruct (Qle_bool _ _) eqn:Hratio; [| done].
  apply Qle_bool_iff in Hratio.
  destruct batch_size as [| p | p]; try lia.
  unfold RATE_LIMIT_THRESHOLD, Qle, Qdiv, Qmult, Qinv, inject_Z in Hratio.
  cbn in Hratio. lia.
Qed.

Lemma fetch_batch_degenerate_witness :
  let run := fetch_batch all_found (rng_const 0) "01" 1 0 2025 in
  tasks run = []
  ∧ cooldown run = []
  ∧ returned run = inl ZeroDivisionError.
Proof. apply (fetch_batch_degenerate all_found (rng_const 0) "01" 1 0 2025). lia. Defined.

Lemma mapM_extract_sbd province sbd : ∀ (items : list json) recs,
  mapM (extract_item province sbd) items = inr recs →
  Forall (λ r, rec_sbd r = sbd) recs.
Proof.
  induction items as [| item items IH]; intros recs Hrecs.
  - injection Hrecs as <-. constructor.
  - change (mapM (extract_item province sbd) (item :: items))
      with (y ← extract_item province sbd item;
            k ← mapM (extract_item province sbd) items; mret (y :: k))
      in Hrecs.
    destruct item as [| | | | | m]; try discriminate Hrecs.
    rewrite extract_item_object in Hrecs. cbn [mbind exn_bind] in Hrecs.
    destruct (mapM (extract_item province sbd) items) as [e | recs'];
      [discriminate Hrecs |].
    injection Hrecs as <-. constructor; [done | by apply IH].
Qed.

Lemma collect_accounting province : ∀ pairs valid_results n valid_results' n',
  collect province pairs valid_results n = inr (valid_results', n') →
  n <= n' <= n + Z.of_nat (length pairs)
  ∧ Forall (λ r, r ∈ valid_results ∨ rec_sbd r ∈ pairs.*1) valid_results'.
Proof.
  induction pairs as [| [sbd result] pairs IH];
    intros valid n valid' n' Hcollect.
  - injection Hcollect as <- <-. split; [cbn; lia |].
    apply Forall_forall. by left.
  - cbn [collect] in Hcollect.
    assert (Hskip : ∀ m,
              collect province pairs valid m = inr (valid', n') →
              m = n + 1 →
              n <= n' <= n + Z.of_nat (length ((sbd, result) :: pairs))
              ∧ Forall (λ r, r ∈ valid
                             ∨ rec_sbd r ∈ ((sbd, result) :: pairs).*1) valid').
    { intros m Hm ->. apply IH in Hm as [Hn Hrecs]. split; [cbn; lia |].
      eapply Forall_impl; [exact Hrecs |]. intros r [? | ?]; [by left |].
      right. rewrite fmap_cons. by apply elem_of_cons; right. }
    destruct result as [e | d]; [by eapply Hskip |].
    destruct (py_get d "success" JNull) as [e | success];
      [discriminate Hcollect |].
    cbn [mbind exn_bind] in Hcollect.
    destruct (negb (truthy success)); [by eapply Hskip |].
    destruct (py_get d "data" (JArr [])) as [e | data];
      [discriminate Hcollect |].
    cbn [mbind exn_bind] in Hcollect.
    destruct (py_iter data) as [e | items]; [discriminate Hcollect |].
    cbn [mbind exn_bind] in Hcollect.
    destruct (mapM (extract_item province sbd) items) as [e | recs] eqn:Hrecs;
      [discriminate Hcollect |].
    cbn [mbind exn_bind] in Hcollect.
    apply mapM_extract_sbd in Hrecs.
    apply IH in Hcollect as [Hn Hall]. split; [cbn [length]; lia |].
    eapply Forall_impl; [exact Hall |]. intros r [Hin | Hin].
    + apply elem_of_app in Hin as [? | Hin]; [by left |]. right.
      rewrite fmap_cons. apply elem_of_cons. left.
      by eapply Forall_forall in Hrecs.
    + right. rewrite fmap_cons. by apply elem_of_cons; right.
Qed.

Lemma batch_results_fst net rng province start_serial batch_size year :
  (batch_results net rng province start_serial batch_size year).*1
  = batch_sbds province start_serial batch_size.
Proof.
  rewrite batch_results_fmap, <- list_fmap_compose. apply list_fmap_id.
Qed.

(** X9. The books of a batch that returns: every Record carries an
    identifier the batch dispatched, and the executor's count of
    non-success outcomes lies between 0 and the number of identifiers
    dispatched.  Nothing is asked of the server. *)
Theorem fetch_batch_accounting net rng (province : string)
    (start_serial batch_size year : Z) (recs : list record) :
  returned (fetch_batch net rng province start_serial batch_size year)
  = inr recs →
  Forall (λ r, rec_sbd r ∈ batch_sbds province start_serial batch_size) recs
  ∧ ∃ rate_limit_count,
      collect province
        (batch_results net rng province start_serial batch_size year) [] 0
      = inr (recs, rate_limit_count)
      ∧ 0 <= rate_limit_count
           <= Z.of_nat (length (batch_sbds province start_serial batch_size)).
Proof.
  unfold fetch_batch. cbn [returned].
  fold (batch_results net rng province start_serial batch_size year).
  destruct (collect province _ [] 0) as [e | [valid n]] eqn:Hcollect;
    [discriminate |].
  cbn [mbind exn_bind]. destruct (true_div n batch_size); [discriminate |].
  intros [= <-].
  apply collect_accounting in Hcollect as [Hn Hrecs].
  rewrite batch_results_fst in Hrecs. split.
  - eapply Forall_impl; [exact Hrecs |]. intros r [Hin | Hin]; [| done].
    by apply elem_of_nil in Hin.
  - exists n. split; [done |].
    rewrite <- (batch_results_fst net rng province start_serial batch_size year).
    rewrite length_fmap. lia.
Qed.

Lemma fetch_batch_accounting_witness :
  Forall (λ r, rec_sbd r ∈ batch_sbds "01" 1 8)
    [record_of_row "01" "01000007" {[ "VAN" := JNum 8 ]}]
  ∧ ∃ rate_limit_count,
      collect "01" (batch_results flaky (rng_const 0) "01" 1 8 2025) [] 0
      = inr ([record_of_row "01" "01000007" {[ "VAN" := JNum 8 ]}],
             rate_limit_count)
      ∧ 0 <= rate_limit_count <= Z.of_nat (length (batch_sbds "01" 1 8)).
Proof.
  apply (fetch_batch_accounting flaky (rng_const 0) "01" 1 8 2025).
  vm_compute. reflexivity.
Defined.

Lemma mapM_extract_fail province sbd : ∀ items : list json,
  (∃ item, item ∈ items ∧ as_object item = None) →
  mapM (extract_item province sbd) items = inl AttributeError.
Proof.
  induction items as [| item items IH]; intros (bad & Hin & Hbad).
  - by apply elem_of_nil in Hin.
  - change (mapM (extract_item province sbd) (item :: items))
      with (y ← extract_item province sbd item;
            k ← mapM (extract_item province sbd) items; mret (y :: k)).
    destruct item as [| | | | | m]; try reflexivity.
    rewrite extract_item_object. cbn [mbind exn_bind].
    rewrite IH; [done |]. exists bad. split; [| done].
    apply elem_of_cons in Hin as [-> | Hin]; [discriminate Hbad | done].
Qed.

Lemma collect_malformed province : ∀ pairs valid_results n,
  (∃ sbd d, (sbd, inr d) ∈ pairs ∧ malformed d) →
  ∃ e, collect province pairs valid_results n = inl e.
Proof.
  induction pairs as [| [sbd result] pairs IH];
    intros valid n (sbd' & d & Hin & Hbad).
  - by apply elem_of_nil in Hin.
  - apply elem_of_cons in Hin as [[= <- <-] | Hin].
    + destruct Hbad as (m & -> & Hsucc & Hdata).
      cbn [collect py_get mbind exn_bind]. rewrite Hsucc. cbn [negb].
      destruct (default (JArr []) (m !! "data")) as [| | | | items |];
        try done; try by eexists.
      cbn [py_iter mbind exn_bind]. rewrite mapM_extract_fail by done.
      by eexists.
    + assert (Hrest : ∀ valid' n',
                ∃ e, collect province pairs valid' n' = inl e)
        by (intros; apply IH; eauto).
      cbn [collect]. destruct result as [e | d0]; [apply Hrest |].
      destruct (py_get d0 "success" JNull) as [e | success]; [by eexists |].
      cbn [mbind exn_bind].
      destruct (negb (truthy success)); [apply Hrest |].
      destruct (py_get d0 "data" (JArr [])) as [e | data]; [by eexists |].
      cbn [mbind exn_bind].
      destruct (py_iter data) as [e | items]; [by eexists |].
      cbn [mbind exn_bind].
      destruct (mapM (extract_item province sbd) items) as [e | recs];
        [by eexists |].
      apply Hrest.
Qed.

(** X10. Payload errors are not absorbed: when a fetch of the first batch
    of a scan returns a positive dict whose rows cannot be read, the batch
    raises, and the region scan ends right there with that exception,
    after one batch and without a row written. *)
Theorem malformed_row_aborts net rng (batch_size : Z) (fuel : nat)
    (province : string) (year : Z) (existing : option (list row)) :
  (∃ sbd d, (sbd, inr d) ∈ batch_results net rng province 1 batch_size year
            ∧ malformed d) →
  ∃ e st,
    returned (fetch_batch net rng province 1 batch_size year) = inl e
    ∧ worker_scan_province_with net rng batch_size (S fuel) province year
        existing
      = Some (st, Some e)
    ∧ file st = default [header] existing
    ∧ batches (trace st) = 1%nat.
Proof.
  intros Hbad.
  destruct (collect_malformed province _ [] 0 Hbad) as [e Hcollect].
  assert (Hret : returned (fetch_batch net rng province 1 batch_size year)
                 = inl e).
  { unfold fetch_batch. cbn [returned].
    fold (batch_results net rng province 1 batch_size year).
    by rewrite Hcollect. }
  exists e. eexists. split; [exact Hret |].
  unfold worker_scan_province_with. cbn [scan_loop serial].
  change (1 <=? max_serial) with true. cbn beta iota.
  unfold scan_step. cbn [serial]. rewrite Hret.
  split; [reflexivity |]. by split.
Qed.

Lemma malformed_row_aborts_witness :
  ∃ e st,
    returned (fetch_batch bad_row (rng_const 0) "01" 1 1 2025) = inl e
    ∧ worker_scan_province_with bad_row (rng_const 0) 1 1 "01" 2025 None
      = Some (st, Some e)
    ∧ file st = [header]
    ∧ batches (trace st) = 1%nat.
Proof.
  apply (malformed_row_aborts bad_row (rng_const 0) 1 0 "01" 2025 None).
  exists "01000001", (JObj {[ "success" := JBool true; "total" := JNum 1;
                              "data" := JArr [JNum 5] ]}).
  split; [vm_compute; constructor |].
  eexists. split; [reflexivity |]. split; [reflexivity |].
  exists (JNum 5). split; [constructor | reflexivity].
Defined.

(** ** The region scanner *)

Lemma batch_starts_app tr1 tr2 :
  batch_starts (tr1 ++ tr2) = batch_starts tr1 ++ batch_starts tr2.
Proof. induction tr1 as [| [? ? | ?] tr1 IH]; cbn; congruence. Qed.

Lemma trace_records_app tr1 tr2 :
  trace_records (tr1 ++ tr2) = trace_records tr1 ++ trace_records tr2.
Proof.
  induction tr1 as [| [? ? | ?] tr1 IH]; cbn; [done | | done].
  by rewrite IH, app_assoc.
Qed.

Lemma length_batch_starts tr : length (batch_starts tr) = batches tr.
Proof. induction tr as [| [? ? | ?] tr IH]; cbn; congruence. Qed.

Lemma write_rows_values : ∀ items f,
  Forall extracted items →
  write_rows f items = (f ++ (row_values <$> items), None).
Proof.
  induction items as [| item items IH]; intros f Hitems.
  - cbn. by rewrite app_nil_r.
  - apply Forall_cons in Hitems as [Hitem Hitems].
    destruct (row_of_extracted item Hitem) as [Hrow _].
    cbn [write_rows]. rewrite Hrow. cbn beta iota.
    etrans; [by apply IH |]. by rewrite <- app_assoc.
Qed.

Section ScanMore.

Context (net : string → nat → response) (rng : string → nat → N).
Context (batch_size : Z) (province : string) (year : Z).

(** Everything one iteration does, read off the batch it ran. *)
Lemma scan_step_effects st st' o :
  scan_step net rng batch_size province year st = (st', o) →
  let run := fetch_batch net rng province (serial st) batch_size year in
  batch_starts (trace st') = batch_starts (trace st) ++ [serial st]
  ∧ trace_records (trace st') = trace_records (trace st) ++ found run
  ∧ file st' = file st ++ (row_values <$> found run)
  ∧ total st' = total st + Z.of_nat (length (found run))
  ∧ miss_streak (trace st')
    = streak_step (miss_streak (trace st)) (RunBatch (serial st) run)
  ∧ (consecutive_misses st = batch_size * miss_streak (trace st) →
     consecutive_misses st' = batch_size * miss_streak (trace st')).
Proof.
  intros Hstep run. revert Hstep. unfold scan_step, miss_streak, found.
  fold run.
  assert (Hext : ∀ recs, returned run = inr recs → Forall extracted recs)
    by (intros recs; apply fetch_batch_extracted).
  clearbody run.
  destruct (returned run) as [e | [| item items]] eqn:Hret.
  - intros [= <- <-]. cbn [trace file total consecutive_misses].
    rewrite batch_starts_app, trace_records_app, fold_left_app.
    cbn. unfold found. rewrite Hret, !app_nil_r. repeat split; try done.
    lia.
  - destruct (_ <=? _); intros [= <- <-];
      cbn [trace file total consecutive_misses];
      rewrite batch_starts_app, trace_records_app, fold_left_app;
      cbn; unfold found; rewrite Hret, !app_nil_r;
      (repeat split; try done; lia).
  - rewrite (write_rows_values _ (file st) (Hext _ eq_refl)).
    change (MAX_CONSECUTIVE_MISSES <=? 0) with false. cbn beta iota.
    intros [= <- <-]. cbn [trace file total consecutive_misses].
    rewrite batch_starts_app, trace_records_app, fold_left_app.
    cbn. unfold found. rewrite Hret, !app_nil_r. repeat split; try done.
    lia.
Qed.

(** A loop invariant [I], kept by the iterations that go on, gives [F] at
    the end when it gives [F] at each way out. *)
Lemma scan_loop_rule (I F : scan_state → Prop) :
  (∀ st, I st → max_serial < serial st → F st) →
  (∀ st st' o,
     I st → serial st <= max_serial →
     scan_step net rng batch_size province year st = (st', o) →
     match o with Next => I st' | _ => F st' end) →
  ∀ fuel st st' err,
    I st →
    scan_loop net rng fuel batch_size province year st = Some (st', err) →
    F st'.
Proof.
  intros Hexit Hstep. induction fuel as [| fuel IH]; intros st st' err HI;
    cbn [scan_loop];
    destruct (Z.leb_spec (serial st) max_serial) as [Hin | Hout];
    try discriminate; try (intros [= <- <-]; by apply Hexit).
  destruct (scan_step net rng batch_size province year st) as [st1 o] eqn:Hs.
  specialize (Hstep _ _ _ HI Hin Hs).
  destruct o; [by apply IH | by intros [= <- <-] | by intros [= <- <-]].
Qed.

Lemma scan_loop_total fuel st :
  0 < batch_size →
  max_serial + 1 - serial st <= Z.of_nat fuel →
  ∃ st' err,
    scan_loop net rng fuel batch_size province year st = Some (st', err).
Proof.
  intros Hbs Hfuel.
  destruct (scan_loop_spec net rng batch_size province year fuel st Hbs Hfuel)
    as (st' & err & Hloop & _).
  by exists st', err.
Qed.

End ScanMore.

(** X11. The table is the Records found. When a scan ends, normally or
    not, the region's table is what it was before (the header alone for a
    new table) followed by one row per Record the batches returned, in the
    order the batches ran, and the running total counts those Records. *)
Theorem scan_table_is_records_found net rng (batch_size : Z) (fuel : nat)
    (province : string) (year : Z) (existing : option (list row)) :
  0 < batch_size →
  (Z.to_nat max_serial <= fuel)%nat →
  ∃ st err,
    worker_scan_province_with net rng batch_size fuel province year existing
    = Some (st, err)
    ∧ file st
      = default [header] existing ++ (row_values <$> trace_records (trace st))
    ∧ total st = Z.of_nat (length (trace_records (trace st))).
Proof.
  intros Hbs Hfuel. unfold worker_scan_province_with.
  set (st0 := {| file := default [header] existing; total := 0;
                 consecutive_misses := 0; serial := 1; trace := [] |}).
  destruct (scan_loop_total net rng batch_size province year fuel st0 Hbs)
    as (st & err & Hloop); [cbn; unfold max_serial in *; lia |].
  exists st, err. split; [done |].
  set (I := λ s : scan_state,
         file s = default [header] existing
                  ++ (row_values <$> trace_records (trace s))
         ∧ total s = Z.of_nat (length (trace_records (trace s)))).
  apply (scan_loop_rule net rng batch_size province year I I)
    with (fuel := fuel) (st := st0) (err := err); try done.
  - intros s s' o [Hfile Htotal] _ Hstep.
    destruct (scan_step_effects _ _ _ _ _ _ _ _ Hstep)
      as (_ & Hrecs & Hfile' & Htotal' & _).
    assert (I s').
    { split.
      - by rewrite Hfile', Hfile, Hrecs, fmap_app, app_assoc.
      - rewrite Htotal', Htotal, Hrecs, length_app. lia. }
    by destruct o.
  - split; [by rewrite app_nil_r | done].
Qed.

Lemma scan_table_is_records_found_witness :
  ∃ st err,
    worker_scan_province one_candidate (rng_const 5) (Z.to_nat max_serial)
      "01" 2025 None
    = Some (st, err)
    ∧ file st = [header] ++ (row_values <$> trace_records (trace st))
    ∧ total st = Z.of_nat (length (trace_records (trace st))).
Proof.
  apply (scan_table_is_records_found one_candidate (rng_const 5) BATCH_SIZE
           (Z.to_nat max_serial) "01" 2025 None);
    [reflexivity | apply le_n].
Defined.

(** X12. The cursor walks the serial range without gap or overlap: the
    batches of a scan start at 1, 1 + batch_size, 1 + 2 batch_size, ..., one
    after the other, none beyond 150000, so that a scan runs at least one
    and at most [ceil(150000 / batch_size)] batches. *)
Theorem scan_cursor_contiguous net rng (batch_size : Z) (fuel : nat)
    (province : string) (year : Z) (existing : option (list row)) :
  0 < batch_size →
  (Z.to_nat max_serial <= fuel)%nat →
  ∃ st err,
    worker_scan_province_with net rng batch_size fuel province year existing
    = Some (st, err)
    ∧ batch_starts (trace st)
      = (λ i : nat, 1 + Z.of_nat i * batch_size) <$> seq 0 (batches (trace st))
    ∧ Forall (λ s, 1 <= s <= 150000) (batch_starts (trace st))
    ∧ 1 <= Z.of_nat (batches (trace st)) <= ceil_div 150000 batch_size.
Proof.
  intros Hbs Hfuel. unfold worker_scan_province_with.
  set (st0 := {| file := default [header] existing; total := 0;
                 consecutive_misses := 0; serial := 1; trace := [] |}).
  destruct (scan_loop_total net rng batch_size province year fuel st0 Hbs)
    as (st & err & Hloop); [cbn; unfold max_serial in *; lia |].
  exists st, err. split; [done |].
  set (P := λ s : scan_state,
         batch_starts (trace s)
         = (λ i : nat, 1 + Z.of_nat i * batch_size)
             <$> seq 0 (batches (trace s))
         ∧ Forall (λ x, 1 <= x <= 150000) (batch_starts (trace s))).
  set (I := λ s : scan_state,
         P s ∧ serial s = 1 + Z.of_nat (batches (trace s)) * batch_size).
  set (F := λ s : scan_state, P s ∧ (1 <= batches (trace s))%nat).
  assert (HF : F st).
  { apply (scan_loop_rule net rng batch_size province year I F)
      with (fuel := fuel) (st := st0) (err := err); try done.
    - intros s [HP Hserial] Hout. split; [done |].
      unfold max_serial in Hout. destruct (batches (trace s)); lia.
    - intros s s' o [[Hstarts Hrange] Hserial] Hin Hstep.
      destruct (scan_step_effects _ _ _ _ _ _ _ _ Hstep) as (Hstarts' & _).
      destruct (scan_step_spec _ _ _ _ _ _ _ _ Hstep) as (_ & Hbatches & Ho).
      assert (HP : P s').
      { split.
        - rewrite Hstarts', Hbatches, seq_S, fmap_app, <- Hstarts. cbn.
          by rewrite Hserial.
        - rewrite Hstarts'. apply Forall_app. split; [done |].
          apply Forall_singleton. unfold max_serial in Hin. nia. }
      destruct o as [| | e].
      + split; [done |]. destruct Ho as [-> _]. rewrite Hbatches, Hserial. lia.
      + split; [done |]. rewrite Hbatches. lia.
      + split; [done |]. rewrite Hbatches. lia. }
  destruct HF as [[Hstarts Hrange] Hone]. split; [done |]. split; [done |].
  split; [lia |].
  assert (Hlast : 1 + Z.of_nat (batches (trace st) - 1) * batch_size
                  ∈ batch_starts (trace st)).
  { rewrite Hstarts. apply list_elem_of_fmap.
    exists (batches (trace st) - 1)%nat. split; [done |].
    apply elem_of_seq. lia. }
  eapply Forall_forall in Hrange; [| exact Hlast].
  unfold ceil_div. apply Z.div_le_lower_bound; [done |]. nia.
Qed.

Lemma scan_cursor_contiguous_witness :
  ∃ st err,
    worker_scan_province no_data (rng_const 0) (Z.to_nat max_serial) "01"
      2025 None
    = Some (st, err)
    ∧ batch_starts (trace st)
      = (λ i : nat, 1 + Z.of_nat i * 200) <$> seq 0 (batches (trace st))
    ∧ Forall (λ s, 1 <= s <= 150000) (batch_starts (trace st))
    ∧ 1 <= Z.of_nat (batches (trace st)) <= ceil_div 150000 200.
Proof.
  apply (scan_cursor_contiguous no_data (rng_const 0) BATCH_SIZE
           (Z.to_nat max_serial) "01" 2025 None);
    [reflexivity | apply le_n].
Defined.

(** X13. The miss counter is the streak: when a scan ends, its counter of
    consecutive misses is [batch_size] times the number of batches at the
    end of the scan that returned no Record, and it has not passed
    [1000 + batch_size]. *)
Theorem scan_miss_counter_is_streak net rng (batch_size : Z) (fuel : nat)
    (province : string) (year : Z) (existing : option (list row)) :
  0 < batch_size →
  (Z.to_nat max_serial <= fuel)%nat →
  ∃ st err,
    worker_scan_province_with net rng batch_size fuel province year existing
    = Some (st, err)
    ∧ consecutive_misses st = batch_size * miss_streak (trace st)
    ∧ 0 <= consecutive_misses st < 1000 + batch_size.
Proof.
  intros Hbs Hfuel. unfold worker_scan_province_with.
  set (st0 := {| file := default [header] existing; total := 0;
                 consecutive_misses := 0; serial := 1; trace := [] |}).
  destruct (scan_loop_total net rng batch_size province year fuel st0 Hbs)
    as (st & err & Hloop); [cbn; unfold max_serial in *; lia |].
  exists st, err. split; [done |].
  set (I := λ s : scan_state,
         consecutive_misses s = batch_size * miss_streak (trace s)
         ∧ 0 <= miss_streak (trace s)
         ∧ consecutive_misses s < 1000).
  set (F := λ s : scan_state,
         consecutive_misses s = batch_size * miss_streak (trace s)
         ∧ 0 <= consecutive_misses s < 1000 + batch_size).
  apply (scan_loop_rule net rng batch_size province year I F)
    with (fuel := fuel) (st := st0) (err := err); try done.
  - intros s (Hm & Hs & Hlt) _. split; [done | nia].
  - intros s s' o (Hm & Hs & Hlt) _ Hstep.
    destruct (scan_step_effects _ _ _ _ _ _ _ _ Hstep)
      as (_ & _ & _ & _ & Hstreak & Hmiss).
    specialize (Hmiss Hm).
    destruct (scan_step_spec _ _ _ _ _ _ _ _ Hstep) as (_ & _ & Ho).
    assert (Hs' : 0 <= miss_streak (trace s')
                  ∧ miss_streak (trace s') <= miss_streak (trace s) + 1).
    { rewrite Hstreak. unfold streak_step.
      destruct (returned
                  (fetch_batch net rng province (serial s) batch_size year))
        as [? | [| ? ?]]; lia. }
    destruct o as [| | e].
    + destruct Ho as [_ Hlt']. unfold MAX_CONSECUTIVE_MISSES in Hlt'.
      by repeat split; try lia.
    + split; [done | nia].
    + split; [done | nia].
  - unfold I, miss_streak. cbn. lia.
Qed.

Lemma scan_miss_counter_is_streak_witness :
  ∃ st err,
    worker_scan_province no_data (rng_const 0) (Z.to_nat max_serial) "01"
      2025 None
    = Some (st, err)
    ∧ consecutive_misses st = 200 * miss_streak (trace st)
    ∧ 0 <= consecutive_misses st < 1000 + 200.
Proof.
  apply (scan_miss_counter_is_streak no_data (rng_const 0) BATCH_SIZE
           (Z.to_nat max_serial) "01" 2025 None);
    [reflexivity | apply le_n].
Defined.

Section FoundScan.

Context (net : string → nat → response) (rng : string → nat → N).
Context (batch_size : Z) (province : string) (year : Z).
Hypothesis Hfound : ∀ start_serial, ∃ r recs,
  returned (fetch_batch net rng province start_serial batch_size year)
  = inr (r :: recs).
Hypothesis Hbs : 0 < batch_size.



End FoundScan.





(** ** The orchestrator *)

Lemma scan_file_extends net rng batch_size fuel province year existing st err :
  worker_scan_province_with net rng batch_size fuel province year existing
  = Some (st, err) →
  ∃ rows, file st = default [header] existing ++ rows.
Proof.
  unfold worker_scan_province_with.
  set (I := λ s : scan_state,
         ∃ rows, file s = default [header] existing ++ rows).
  apply (scan_loop_rule net rng batch_size province year I I); try done.
  - intros s s' o [rows Hfile] _ Hstep.
    destruct (scan_step_effects _ _ _ _ _ _ _ _ Hstep)
      as (_ & _ & Hfile' & _).
    assert (I s') by (eexists; by rewrite Hfile', Hfile, <- app_assoc).
    by destruct o.
  - exists []. by rewrite app_nil_r.
Qed.

Lemma main_loop_total net rng (fuel : nat) :
  (Z.to_nat max_serial <= fuel)%nat →
  ∀ provinces files,
    ∃ files' err, main_loop net rng fuel provinces files = Some (files', err).
Proof.
  intros Hfuel. induction provinces as [| province rest IH]; intros files;
    [by eexists _, _ |].
  cbn [main_loop]. unfold worker_scan_province, worker_scan_province_with.
  destruct (scan_loop_total net rng BATCH_SIZE province 2025 fuel
              {| file := default [header] (files !! province); total := 0;
                 consecutive_misses := 0; serial := 1; trace := [] |}
              eq_refl) as (st & err & ->);
    [cbn; unfold max_serial in *; lia |].
  destruct err as [e |]; [by eexists _, _ | apply IH].
Qed.

Lemma main_loop_preserves net rng (fuel : nat) :
  ∀ provinces (files files' : gmap string (list row)) err,
    main_loop net rng fuel provinces files = Some (files', err) →
    (∀ p, p ∉ provinces → files' !! p = files !! p)
    ∧ (∀ p content, files !! p = Some content →
         ∃ rows, files' !! p = Some (content ++ rows))
    ∧ (∀ p, files !! p = None →
         files' !! p = None ∨ ∃ rows, files' !! p = Some (header :: rows))
    ∧ (err = None → ∀ p, p ∈ provinces → is_Some (files' !! p)).
Proof.
  induction provinces as [| province rest IH]; intros files files' err Hmain.
  - injection Hmain as <- <-. repeat split.
    + intros p content Hp. exists []. by rewrite app_nil_r.
    + intros p Hp. by left.
    + intros _ p Hp. by apply elem_of_nil in Hp.
  - cbn [main_loop] in Hmain.
    unfold worker_scan_province in Hmain.
    destruct (worker_scan_province_with net rng BATCH_SIZE fuel province 2025
                (files !! province)) as [[st [e |]] |] eqn:Hscan;
      [| | discriminate Hmain].
    + (* the scan raised: the crawl stops with this region's table *)
      injection Hmain as <- <-.
      apply (scan_file_extends net rng BATCH_SIZE fuel province 2025) in Hscan
        as [rows Hfile].
      repeat split.
      * intros p Hp. apply not_elem_of_cons in Hp as [Hne _].
        by rewrite lookup_insert_ne.
      * intros p content Hp. destruct (decide (p = province)) as [-> | Hne].
        -- rewrite lookup_insert_eq, Hfile, Hp. by eexists.
        -- rewrite lookup_insert_ne by done. exists []. by rewrite app_nil_r.
      * intros p Hp. destruct (decide (p = province)) as [-> | Hne].
        -- right. rewrite lookup_insert_eq, Hfile, Hp. by eexists.
        -- left. by rewrite lookup_insert_ne.
      * discriminate.
    + apply (scan_file_extends net rng BATCH_SIZE fuel province 2025) in Hscan
        as [rows Hfile].
      apply IH in Hmain as (Hother & Hkeep & Hnew & Hall). repeat split.
      * intros p Hp. apply not_elem_of_cons in Hp as [Hne Hp].
        rewrite Hother by done. by rewrite lookup_insert_ne.
      * intros p content Hp. destruct (decide (p = province)) as [-> | Hne].
        -- destruct (Hkeep province (file st)) as [rows' Hrows'];
             [by rewrite lookup_insert_eq |].
           rewrite Hrows', Hfile, Hp. cbn. rewrite <- app_assoc. by eexists.
        -- apply Hkeep. by rewrite lookup_insert_ne.
      * intros p Hp. destruct (decide (p = province)) as [-> | Hne].
        -- right. destruct (Hkeep province (file st)) as [rows' Hrows'];
             [by rewrite lookup_insert_eq |].
           rewrite Hrows', Hfile, Hp. cbn. by eexists.
        -- apply Hnew. by rewrite lookup_insert_ne.
      * intros Herr p Hp. apply elem_of_cons in Hp as [-> | Hp].
        -- destruct (Hkeep province (file st)) as [rows' Hrows'];
             [by rewrite lookup_insert_eq |].
           by rewrite Hrows'.
        -- by apply Hall.
Qed.

(** X15. The crawl only ever appends. It ends, and afterwards the table of
    a region outside the 64 codes is untouched, a table that existed
    before still begins with its old rows, a table that is new begins with
    the header, and after a normal end every one of the 64 regions has its
    table. *)
Theorem main_only_appends net rng (fuel : nat) (files : gmap string (list row)) :
  (Z.to_nat max_serial <= fuel)%nat →
  ∃ files' err,
    main net rng fuel files = Some (files', err)
    ∧ (∀ p, p ∉ PROVINCE_CODES → files' !! p = files !! p)
    ∧ (∀ p content, files !! p = Some content →
         ∃ rows, files' !! p = Some (content ++ rows))
    ∧ (∀ p, files !! p = None →
         files' !! p = None ∨ ∃ rows, files' !! p = Some (header :: rows))
    ∧ (err = None → ∀ p, p ∈ PROVINCE_CODES → is_Some (files' !! p)).
Proof.
  intros Hfuel. unfold main.
  destruct (main_loop_total net rng fuel Hfuel PROVINCE_CODES files)
    as (files' & err & Hmain).
  exists files', err. split; [done |]. by eapply main_loop_preserves.
Qed.

Lemma main_only_appends_witness :
  ∃ files' err,
    main no_data (rng_const 0) (Z.to_nat max_serial) {[ "99" := [[JStr "x"]] ]}
    = Some (files', err)
    ∧ (∀ p, p ∉ PROVINCE_CODES →
         files' !! p = ({[ "99" := [[JStr "x"]] ]} : gmap string (list row)) !! p)
    ∧ (∀ p content,
         ({[ "99" := [[JStr "x"]] ]} : gmap string (list row)) !! p
         = Some content →
         ∃ rows, files' !! p = Some (content ++ rows))
    ∧ (∀ p, ({[ "99" := [[JStr "x"]] ]} : gmap string (list row)) !! p = None →
         files' !! p = None ∨ ∃ rows, files' !! p = Some (header :: rows))
    ∧ (err = None → ∀ p, p ∈ PROVINCE_CODES → is_Some (files' !! p)).
Proof.
  apply (main_only_appends no_data (rng_const 0) (Z.to_nat max_serial)
           {[ "99" := [[JStr "x"]] ]}).
  apply le_n.
Defined.

(** ** The table writer *)

Lemma py_getitem_outcome (d : list (string * json)) key :
  match py_getitem d key with
  | inl e => e = KeyError ∧ key ∉ d.*1
  | inr v => (key, v) ∈ d
  end.
Proof.
  induction d as [| [k v] d IH]; cbn [py_getitem].
  - split; [done |]. apply not_elem_of_nil.
  - case_bool_decide as Hk.
    + subst. by left.
    + destruct (py_getitem d key) as [e | v'].
      * destruct IH as [-> Hnot]. split; [done |].
        rewrite fmap_cons. apply not_elem_of_cons. by split.
      * by right.
Qed.

Lemma mapM_getitem_outcome (d : list (string * json)) :
  ∀ subjects : list string,
    match mapM (py_getitem d) subjects with
    | inl e => e = KeyError ∧ ∃ subj, subj ∈ subjects ∧ subj ∉ d.*1
    | inr scores =>
        length scores = length subjects
        ∧ ∀ subj, subj ∈ subjects → subj ∈ d.*1
    end.
Proof.
  induction subjects as [| subj subjects IH].
  - cbn. split; [done |]. intros subj Hin. by apply elem_of_nil in Hin.
  - change (mapM (py_getitem d) (subj :: subjects))
      with (y ← py_getitem d subj;
            k ← mapM (py_getitem d) subjects; mret (y :: k)).
    pose proof (py_getitem_outcome d subj) as Hget.
    destruct (py_getitem d subj) as [e | v]; cbn [mbind exn_bind].
    + destruct Hget as [-> Hnot]. split; [done |]. exists subj.
      split; [by left | done].
    + destruct (mapM (py_getitem d) subjects) as [e | scores];
        cbn [mbind exn_bind].
      * destruct IH as [-> (bad & Hin & Hnot)]. split; [done |].
        exists bad. split; [by right | done].
      * destruct IH as [Hlen Hall]. split; [cbn; by rewrite Hlen |].
        intros s [-> | Hin]%elem_of_cons; [| by apply Hall].
        apply list_elem_of_fmap. by exists (subj, v).
Qed.

Lemma row_of_outcome (item : record) :
  match row_of item with
  | inl e =>
      e = KeyError
      ∧ ∃ subj, subj ∈ worker_subjects ∧ subj ∉ (rec_data item).*1
  | inr rw => length rw = 16%nat
  end.
Proof.
  unfold row_of.
  pose proof (mapM_getitem_outcome (rec_data item) worker_subjects) as H.
  destruct (mapM (py_getitem (rec_data item)) worker_subjects)
    as [e | scores]; cbn [mbind exn_bind mret exn_ret]; [done |].
  destruct H as [Hlen _]. cbn [length]. by rewrite Hlen.
Qed.

Lemma mapM_getitem_inr (d : list (string * json)) :
  ∀ (subjects : list string) scores,
    mapM (py_getitem d) subjects = inr scores →
    Forall2 (λ subj v, py_getitem d subj = inr v) subjects scores.
Proof.
  induction subjects as [| subj subjects IH]; intros scores Hscores.
  - injection Hscores as <-. constructor.
  - change (mapM (py_getitem d) (subj :: subjects))
      with (y ← py_getitem d subj;
            k ← mapM (py_getitem d) subjects; mret (y :: k)) in Hscores.
    destruct (py_getitem d subj) as [e | v] eqn:Hget; [discriminate Hscores |].
    cbn [mbind exn_bind] in Hscores.
    destruct (mapM (py_getitem d) subjects) as [e | vs];
      [discriminate Hscores |].
    injection Hscores as <-. constructor; [done | by apply IH].
Qed.

Lemma row_of_row_for (item : record) rw :
  row_of item = inr rw → row_for item rw.
Proof.
  unfold row_of.
  destruct (mapM (py_getitem (rec_data item)) worker_subjects)
    as [e | scores] eqn:Hscores; [discriminate |].
  intros [= <-]. exists scores. split; [done |].
  by apply mapM_getitem_inr.
Qed.

(** X16. The writer and a missing field. Writing the rows of a list of
    Records either appends, for every Record in order, its row
    (identifier, region id, then its field for each of the 14 subjects),
    or stops with [KeyError] at the first Record whose fields lack one of
    the subjects; then the table has gained exactly the rows of the
    Records before that one. *)
Theorem write_rows_outcome (items : list record) (f : list row) :
  match write_rows f items with
  | (f', None) =>
      ∃ rows, f' = f ++ rows ∧ Forall2 row_for items rows
  | (f', Some e) =>
      e = KeyError
      ∧ ∃ good bad rest rows,
          items = good ++ bad :: rest
          ∧ f' = f ++ rows
          ∧ Forall2 row_for good rows
          ∧ ∃ subj, subj ∈ worker_subjects ∧ subj ∉ (rec_data bad).*1
  end.
Proof.
  revert f. induction items as [| item items IH]; intros f.
  - cbn. exists []. rewrite app_nil_r. split; [done | constructor].
  - cbn [write_rows]. pose proof (row_of_outcome item) as Hrow.
    destruct (row_of item) as [e | rw] eqn:Hrw.
    + destruct Hrow as [-> Hbad]. split; [done |].
      exists [], item, items, []. rewrite app_nil_r.
      split; [done |]. split; [done |]. split; [constructor | done].
    + apply row_of_row_for in Hrw. specialize (IH (f ++ [rw])).
      destruct (write_rows (f ++ [rw]) items) as [f' [e |]].
      * destruct IH as (-> & good & bad & rest & rows & -> & -> & Hrows & Hbad).
        split; [done |]. exists (item :: good), bad, rest, (rw :: rows).
        rewrite <- app_assoc. split; [done |]. split; [done |].
        split; [by constructor | done].
      * destruct IH as (rows & -> & Hrows).
        exists (rw :: rows). rewrite <- app_assoc. split; [done |].
        by constructor.
Qed.

(** ** The merge step *)

Section MergeMore.

Context {K : Type} `{Countable K} {R : Type} (SBD : R → K).

Lemma drop_duplicates_from_sublist : ∀ (df : list R) (seen : gset K),
  (drop_duplicates_from SBD seen df) `sublist_of` df.
Proof.
  induction df as [| r df IH]; intros seen; [done |].
  cbn [drop_duplicates_from]. case_decide.
  - by apply sublist_cons.
  - by apply sublist_skip.
Qed.

Lemma drop_duplicates_from_first : ∀ (df : list R) (seen : gset K) r,
  r ∈ drop_duplicates_from SBD seen df
  ↔ ∃ l1 l2, df = l1 ++ r :: l2 ∧ (SBD r ∉ SBD <$> l1) ∧ (SBD r ∉ seen).
Proof.
  induction df as [| r0 df IH]; intros seen r.
  - cbn. split; [by intros ?%elem_of_nil |].
    intros (l1 & l2 & Heq & _). by destruct l1.
  - cbn [drop_duplicates_from]. case_decide as Hseen.
    + rewrite IH. split.
      * intros (l1 & l2 & -> & Hl1 & Hr). exists (r0 :: l1), l2.
        split; [done |]. split; [| done].
        rewrite fmap_cons. apply not_elem_of_cons. split; [| done].
        intros Heq. by rewrite Heq in Hr.
      * intros (l1 & l2 & Heq & Hl1 & Hr). destruct l1 as [| r1 l1].
        -- injection Heq as -> ->. done.
        -- injection Heq as -> ->. exists l1, l2. split; [done |].
           rewrite fmap_cons in Hl1. apply not_elem_of_cons in Hl1 as [_ ?].
           by split.
    + rewrite elem_of_cons, IH. split.
      * intros [-> | (l1 & l2 & -> & Hl1 & Hr)].
        -- exists [], df. split; [done |]. split; [| done].
           apply not_elem_of_nil.
        -- exists (r0 :: l1), l2. split; [done |].
           rewrite fmap_cons, not_elem_of_cons. set_solver.
      * intros (l1 & l2 & Heq & Hl1 & Hr). destruct l1 as [| r1 l1].
        -- injection Heq as -> ->. by left.
        -- injection Heq as -> ->. right. exists l1, l2. split; [done |].
           rewrite fmap_cons, not_elem_of_cons in Hl1. set_solver.
Qed.

(** X17. The survivor of every duplicate group is its first row, and the
    rows keep their order: a row is in the output exactly when no earlier
    row of the input has its identifier, and the output is the input with
    rows left out. *)
Theorem drop_duplicates_keeps_first (df : list R) :
  (drop_duplicates SBD df) `sublist_of` df
  ∧ ∀ r, r ∈ drop_duplicates SBD df
         ↔ ∃ l1 l2, df = l1 ++ r :: l2 ∧ SBD r ∉ SBD <$> l1.
Proof.
  split; [apply drop_duplicates_from_sublist |].
  intros r. unfold drop_duplicates. rewrite drop_duplicates_from_first.
  split.
  - intros (l1 & l2 & ? & ? & _). by exists l1, l2.
  - intros (l1 & l2 & ? & ?). exists l1, l2. set_solver.
Qed.

Lemma drop_duplicates_from_covered : ∀ (df : list R) (seen : gset K),
  (∀ r, r ∈ df → SBD r ∈ seen) → drop_duplicates_from SBD seen df = [].
Proof.
  induction df as [| r df IH]; intros seen Hcov; [done |].
  cbn [drop_duplicates_from]. rewrite decide_True by (apply Hcov; by left).
  apply IH. intros r' Hr'. apply Hcov. by right.
Qed.

Lemma drop_duplicates_from_app : ∀ (l1 l2 : list R) (seen : gset K),
  drop_duplicates_from SBD seen (l1 ++ l2)
  = drop_duplicates_from SBD seen l1
    ++ drop_duplicates_from SBD (list_to_set (SBD <$> l1) ∪ seen) l2.
Proof.
  induction l1 as [| r l1 IH]; intros l2 seen.
  - cbn. f_equal. set_solver.
  - cbn [app drop_duplicates_from]. case_decide as Hseen.
    + rewrite IH. do 2 f_equal. set_solver.
    + rewrite IH. cbn [app]. do 3 f_equal. set_solver.
Qed.

Lemma drop_duplicates_from_unique : ∀ (df : list R) (seen : gset K),
  NoDup (SBD <$> df) →
  (∀ r, r ∈ df → SBD r ∉ seen) →
  drop_duplicates_from SBD seen df = df.
Proof.
  induction df as [| r df IH]; intros seen Hnodup Hfresh; [done |].
  rewrite fmap_cons in Hnodup. apply NoDup_cons in Hnodup as [Hr Hnodup].
  cbn [drop_duplicates_from].
  rewrite decide_False by (apply Hfresh; by left).
  f_equal. apply IH; [done |]. intros r' Hr'.
  assert (SBD r' ≠ SBD r).
  { intros Heq. apply Hr. rewrite <- Heq. by apply list_elem_of_fmap_2. }
  assert (SBD r' ∉ seen) by (apply Hfresh; by right). set_solver.
Qed.

(** X18. Merging again changes nothing: once a merge has produced a
    table, merging that table alone, or the same inputs together with that
    table, or the same inputs twice over, produces the same table. *)
Theorem merged_df_again (df_list : list (list R)) (out : list R) :
  merged_df SBD df_list = inr out →
  merged_df SBD [out] = inr out
  ∧ merged_df SBD (df_list ++ [out]) = inr out
  ∧ merged_df SBD (df_list ++ df_list) = inr out.
Proof.
  unfold merged_df, pd_concat. destruct df_list as [| df df_list];
    [discriminate |].
  cbn [mbind exn_bind mret exn_ret app]. intros [= Hout].
  change (drop_duplicates SBD (concat (df :: df_list)) = out) in Hout.
  set (all := concat (df :: df_list)) in *.
  destruct (drop_duplicates_from_spec SBD all ∅) as (Hnodup & Hkeys & Hsub).
  fold (drop_duplicates SBD all) in Hnodup, Hkeys, Hsub.
  rewrite Hout in Hnodup, Hkeys, Hsub.
  assert (Hagain : ∀ l, (∀ r, r ∈ l → SBD r ∈ SBD <$> all) →
            drop_duplicates SBD (all ++ l) = out).
  { intros l Hl. rewrite <- Hout. unfold drop_duplicates.
    rewrite drop_duplicates_from_app.
    rewrite (drop_duplicates_from_covered l (list_to_set (SBD <$> all) ∪ ∅)).
    - by rewrite app_nil_r.
    - intros r Hr. specialize (Hl r Hr). set_solver. }
  split; [| split].
  - f_equal. cbn [concat]. rewrite app_nil_r.
    apply drop_duplicates_from_unique; [done | set_solver].
  - f_equal. change (df :: df_list ++ [out]) with ((df :: df_list) ++ [out]).
    rewrite concat_app. cbn [concat]. rewrite app_nil_r. apply Hagain.
    intros r Hr. apply Hsub in Hr. by apply list_elem_of_fmap_2.
  - f_equal.
    change (df :: df_list ++ df :: df_list)
      with ((df :: df_list) ++ (df :: df_list)).
    rewrite concat_app. apply Hagain.
    intros r Hr. by apply list_elem_of_fmap_2.
Qed.

(** X19. Nothing is lost without duplicates: when no identifier occurs
    twice in the input tables, the merge returns all their rows, in
    order. *)
Theorem merged_df_unique_input (df_list : list (list R)) :
  df_list ≠ [] →
  NoDup (SBD <$> concat df_list) →
  merged_df SBD df_list = inr (concat df_list).
Proof.
  intros Hne Hnodup. unfold merged_df, pd_concat.
  destruct df_list as [| df df_list]; [done |].
  cbn [mbind exn_bind mret exn_ret]. f_equal.
  apply drop_duplicates_from_unique; [done | set_solver].
Qed.

End MergeMore.

Lemma merged_df_again_witness :
  merged_df fst [[("01000001", 7)]] = inr [("01000001", 7)]
  ∧ merged_df fst ([[("01000001", 7); ("01000002", 5)];
                    [("01000001", 9); ("01000003", 4)]]
                   ++ [[("01000001", 7); ("01000002", 5); ("01000003", 4)]])
    = inr [("01000001", 7); ("01000002", 5); ("01000003", 4)]
  ∧ merged_df fst ([[("01000001", 7); ("01000002", 5)];
                    [("01000001", 9); ("01000003", 4)]]
                   ++ [[("01000001", 7); ("01000002", 5)];
                       [("01000001", 9); ("01000003", 4)]])
    = inr [("01000001", 7); ("01000002", 5); ("01000003", 4)].
Proof.
  split; [vm_compute; reflexivity |].
  apply (merged_df_again fst
           [[("01000001", 7); ("01000002", 5)];
            [("01000001", 9); ("01000003", 4)]]
           [("01000001", 7); ("01000002", 5); ("01000003", 4)]).
  vm_compute. reflexivity.
Defined.

Lemma merged_df_unique_input_witness :
  merged_df fst [[("01000001", 7)]; [("02000001", 9)]]
  = inr [("01000001", 7); ("02000001", 9)].
Proof.
  apply (merged_df_unique_input fst [[("01000001", 7)]; [("02000001", 9)]]);
    [discriminate |].
  cbn. repeat constructor; set_solver.
Defined.

(** ** Cooldown on a malformed payload, rounded sleeps, rows of the table
       (C3, C2, C10) *)

(** C3, as the specification words it, fails. In a batch of four with
    three misses the ratio is 3/4, yet the fourth fetch returns a positive
    payload whose row is a number: the batch raises while it extracts the
    Records, before it looks at the ratio, so it neither sleeps nor
    returns. *)
Lemma cooldown_without_contract_counterexample :
  let pairs := batch_results bad_row_among_misses (rng_const 0) "01" 1 4 2025 in
  let run := fetch_batch bad_row_among_misses (rng_const 0) "01" 1 4 2025 in
  (1 # 2 <= inject_Z (non_success_count pairs.*2) / inject_Z 4)%Q
  ∧ cooldown run = []
  ∧ returned run = inl AttributeError
  ∧ ¬ (cooldown run = [Sleep 60] ∧ ∃ recs, returned run = inr recs).
Proof.
  split; [vm_compute; discriminate |].
  split; [vm_compute; reflexivity |].
  split; [vm_compute; reflexivity |].
  intros [Hcool _]. vm_compute in Hcool. discriminate Hcool.
Qed.

(** The largest jitter, rounded as the program rounds it: with
    [random()] at its largest value the exact sum after the first 429 is
    [12 - 2^-52], and the double the program sleeps is 12. *)
Example sleep_429_rounds_to_bound :
  (uniform 0 2 (random_random (2 ^ 53 - 1)) < 2)%Q
  ∧ (double_nearest (10 + uniform 0 2 (random_random (2 ^ 53 - 1))) == 12)%Q
  ∧ (double_nearest (10 + uniform 0 2 (random_random 0)) == 10)%Q.
Proof. by vm_compute. Qed.

Lemma found_extracted net rng province start_serial batch_size year :
  Forall extracted
    (found (fetch_batch net rng province start_serial batch_size year)).
Proof.
  unfold found.
  destruct (returned (fetch_batch net rng province start_serial batch_size year))
    as [e | recs] eqn:Hret; [constructor |].
  by eapply fetch_batch_extracted.
Qed.

Lemma row_values_extracted (r : record) :
  extracted r →
  length (row_values r) = length header
  ∧ length (row_values r) = 16%nat
  ∧ zip ("SBD" :: "TinhId" :: worker_subjects) (row_values r)
    = ("SBD", JStr (rec_sbd r)) :: ("TinhId", rec_tinh_id r) :: rec_data r.
Proof. intros (province & sbd & item & ->). by repeat split. Qed.

(** C10. A scan that moves forward ends, and the rows it appended to the
    region's table are, one for one and in order, the rows of the Records
    its batches returned; each has as many values as the header (16), and
    pairing the header's column names with the row's values gives the
    Record's identifier under [SBD], its region id under [TinhId], and
    under each of the 14 subjects the Record's field of that name.  The two
    subject lists of the program are the same list. *)
Theorem rows_match_header net rng (batch_size : Z) (fuel : nat)
    (province : string) (year : Z) (existing : option (list row)) :
  0 < batch_size →
  (Z.to_nat max_serial <= fuel)%nat →
  fetch_batch_subjects = worker_subjects
  ∧ header = JStr <$> "SBD" :: "TinhId" :: worker_subjects
  ∧ ∃ st err appended,
      worker_scan_province_with net rng batch_size fuel province year existing
      = Some (st, err)
      ∧ file st = default [header] existing ++ appended
      ∧ Forall2
          (λ (r : record) (rw : row),
             length rw = length header
             ∧ length rw = 16%nat
             ∧ zip ("SBD" :: "TinhId" :: worker_subjects) rw
               = ("SBD", JStr (rec_sbd r)) :: ("TinhId", rec_tinh_id r)
                 :: rec_data r)
          (trace_records (trace st)) appended.
Proof.
  intros Hbs Hfuel. split; [reflexivity |]. split; [reflexivity |].
  unfold worker_scan_province_with.
  set (st0 := {| file := default [header] existing; total := 0;
                 consecutive_misses := 0; serial := 1; trace := [] |}).
  destruct (scan_loop_total net rng batch_size province year fuel st0 Hbs)
    as (st & err & Hloop); [cbn; unfold max_serial in *; lia |].
  set (I := λ s : scan_state,
         file s = default [header] existing
                  ++ (row_values <$> trace_records (trace s))
         ∧ Forall extracted (trace_records (trace s))).
  assert (HI : I st).
  { apply (scan_loop_rule net rng batch_size province year I I)
      with (fuel := fuel) (st := st0) (err := err); try done.
    - intros s s' o [Hfile Hext] _ Hstep.
      destruct (scan_step_effects _ _ _ _ _ _ _ _ Hstep)
        as (_ & Hrecs & Hfile' & _).
      assert (I s').
      { split.
        - by rewrite Hfile', Hfile, Hrecs, fmap_app, app_assoc.
        - rewrite Hrecs. apply Forall_app. split; [done |].
          apply found_extracted. }
      by destruct o.
    - split; [by rewrite app_nil_r | constructor]. }
  destruct HI as [Hfile Hext].
  exists st, err, (row_values <$> trace_records (trace st)).
  split; [done |]. split; [done |].
  apply Forall2_fmap_r, Forall_Forall2_diag.
  eapply Forall_impl; [exact Hext |]. apply row_values_extracted.
Qed.

Lemma rows_match_header_witness :
  fetch_batch_subjects = worker_subjects
  ∧ header = JStr <$> "SBD" :: "TinhId" :: worker_subjects
  ∧ ∃ st err appended,
      worker_scan_province one_candidate (rng_const 5) (Z.to_nat max_serial)
        "01" 2025 None
      = Some (st, err)
      ∧ file st = [header] ++ appended
      ∧ Forall2
          (λ (r : record) (rw : row),
             length rw = length header
             ∧ length rw = 16%nat
             ∧ zip ("SBD" :: "TinhId" :: worker_subjects) rw
               = ("SBD", JStr (rec_sbd r)) :: ("TinhId", rec_tinh_id r)
                 :: rec_data r)
          (trace_records (trace st)) appended.
Proof.
  apply (rows_match_header one_candidate (rng_const 5) BATCH_SIZE
           (Z.to_nat max_serial) "01" 2025 None);
    [reflexivity | apply le_n].
Defined.
